(** * Outline extraction from styled text spans

    A shallow embedding of [src/nlp.py] (the linguistic heuristics) and of
    [src/process_pdfs.py] (title detection, font-to-level classification,
    heading candidates, outline extraction), followed by the properties of
    the specification that concern them.

    Conventions of the embedding:
    - a Python [str] is a list of Unicode code points;
    - a Python [float] is a primitive binary64 float, with the kernel's
      IEEE 754 operations;
    - a call that may raise returns a [result];
    - the Unicode character database, spaCy, langdetect, PyMuPDF and the
      file system are interfaces (type classes): the repository only
      calls them;
    - the builtin [sorted] is an interface too, with what Python promises
      of it on keys that are numbers; [max] is the loop of the builtin;
    - the files written by [process_pdf] are a list of paths with their
      results, the last written first; their JSON text is not modelled,
      and whether a write succeeds is left to the file system;
    - the three patterns of [starts_with_numbering] are regular
      expressions matched by derivatives;
    - the [print] calls only write to the log and are left out, as is
      [debug_font_sizes], which only prints. *)

From Stdlib Require Import List NArith ZArith Bool Lia String Ascii.
From Stdlib Require Import Floats Uint63 Permutation Sorted.
Import ListNotations.
Set Warnings "-inexact-float".

(* ================================================================== *)
(** * Python values, strings and the pieces of [re] the code uses      *)
(* ================================================================== *)

Module Py.

(** A character is a Unicode code point, a string a sequence of them. *)
Definition char : Type := N.
Definition str : Type := list char.

(** [u "abc"]: the string of an ASCII literal. *)
Definition u (s : string) : str := map N_of_ascii (list_ascii_of_string s).

Definition str_eq_dec : forall a b : str, {a = b} + {a <> b} :=
  list_eq_dec N.eq_dec.

(** Exceptions, and computations that may raise one. *)
Inductive exn : Type :=
| IndexError
| KeyError
| OSError
| LangDetectException.

Inductive result (A : Type) : Type :=
| Ok (a : A)
| Raise (e : exn).
Arguments Ok {A} a.
Arguments Raise {A} e.

Definition bind {A B : Type} (m : result A) (k : A -> result B) : result B :=
  match m with
  | Ok a => k a
  | Raise e => Raise e
  end.

(** [try m except Exception: h] *)
Definition try_except {A : Type} (m : result A) (h : exn -> result A) : result A :=
  match m with
  | Ok a => Ok a
  | Raise e => h e
  end.

(** The per-character tables of the Unicode character database that
    CPython's [str] methods and [re] consult
    ([Py_UNICODE_ISALPHA], [Py_UNICODE_ISUPPER], ...). *)
Class UnicodeDB : Type := {
  ISALPHA : char -> bool;
  ISUPPER : char -> bool;
  ISLOWER : char -> bool;
  ISTITLE : char -> bool;
  ISSPACE : char -> bool;
  ISALNUM : char -> bool
}.

Definition in_range (lo hi c : N) : bool := ((lo <=? c) && (c <=? hi))%N.

(** The tables on the Basic Latin block (U+0000..U+007F), as the Unicode
    character database has them; nothing beyond the block is classified.
    Used to evaluate the functions on ASCII texts. *)
Definition basic_latin : UnicodeDB := {|
  ISALPHA := fun c => in_range 65 90 c || in_range 97 122 c;
  ISUPPER := fun c => in_range 65 90 c;
  ISLOWER := fun c => in_range 97 122 c;
  ISTITLE := fun _ => false;
  ISSPACE := fun c => in_range 9 13 c || in_range 28 32 c;
  ISALNUM := fun c => in_range 48 57 c || in_range 65 90 c || in_range 97 122 c
|}.

(** Two tables that classify a character alike. *)
Definition same_class (U V : UnicodeDB) (c : char) : Prop :=
  @ISALPHA U c = @ISALPHA V c
  /\ @ISUPPER U c = @ISUPPER V c
  /\ @ISLOWER U c = @ISLOWER V c
  /\ @ISTITLE U c = @ISTITLE V c
  /\ @ISSPACE U c = @ISSPACE V c
  /\ @ISALNUM U c = @ISALNUM V c.

(** A text of the Basic Latin block. *)
Definition ascii (s : str) : bool := forallb (fun c => (c <? 128)%N) s.

(** What the properties below need of the tables: they are those of
    Unicode on the Basic Latin block (so U+0020 is white space), and a
    character flagged lowercase is flagged neither uppercase nor
    titlecase. *)
Class UnicodeLaws (U : UnicodeDB) : Prop := {
  basic_latin_block : forall c, (c < 128)%N -> same_class U basic_latin c;
  lower_not_upper : forall c, ISLOWER c = true -> ISUPPER c = false;
  lower_not_title : forall c, ISLOWER c = true -> ISTITLE c = false
}.

Section Str.
Context {U : UnicodeDB}.

(** [len(s)] and the truth value of a string. *)
Definition len (s : str) : nat := List.length s.

Definition truthy (s : str) : bool :=
  match s with
  | [] => false
  | _ :: _ => true
  end.

(** [s[i]] *)
Definition getitem (s : str) (i : nat) : result char :=
  match nth_error s i with
  | Some c => Ok c
  | None => Raise IndexError
  end.

(** [s.isalpha()]: non-empty and every character alphabetic. *)
Definition isalpha (s : str) : bool := truthy s && forallb ISALPHA s.

(** The loop shared by [isupper] and [islower]: fail on a character of
    the wrong case, remember whether a cased character was seen. *)
Fixpoint cased_scan (bad good : char -> bool) (cased : bool) (s : str) : bool :=
  match s with
  | [] => cased
  | c :: t => if bad c then false else cased_scan bad good (cased || good c) t
  end.

(** [s.isupper()], with CPython's shortcut for one character. *)
Definition isupper (s : str) : bool :=
  match s with
  | [c] => ISUPPER c
  | _ => cased_scan (fun c => ISLOWER c || ISTITLE c) ISUPPER false s
  end.

(** [s.islower()]; false on the empty string. *)
Definition islower (s : str) : bool :=
  match s with
  | [c] => ISLOWER c
  | _ => cased_scan (fun c => ISUPPER c || ISTITLE c) ISLOWER false s
  end.

(** [s.split()]: the maximal runs of characters that are not white
    space, in order. *)
Fixpoint split (s : str) : list str :=
  match s with
  | [] => []
  | c :: t =>
      if ISSPACE c then split t
      else match t with
           | [] => [[c]]
           | d :: _ =>
               if ISSPACE d then [c] :: split t
               else match split t with
                    | w :: ws => (c :: w) :: ws
                    | [] => [[c]]
                    end
           end
  end.

Fixpoint lstrip (s : str) : str :=
  match s with
  | [] => []
  | c :: t => if ISSPACE c then lstrip t else s
  end.

Definition rstrip (s : str) : str := rev (lstrip (rev s)).

(** [s.strip()] *)
Definition strip (s : str) : str := rstrip (lstrip s).

(** [sep.join(l)] *)
Fixpoint join (sep : str) (l : list str) : str :=
  match l with
  | [] => []
  | [w] => w
  | w :: ws => w ++ sep ++ join sep ws
  end.

(** ** Regular expressions *)

(** [\w] on a [str] pattern: alphanumeric or underscore. [\s] is [ISSPACE]. *)
Definition word_char (c : char) : bool := ISALNUM c || (c =? 95)%N.

(** A greedy repetition of a one-character class at the head of [s]. *)
Fixpoint greedy (p : char -> bool) (s : str) : nat :=
  match s with
  | [] => 0
  | c :: t => if p c then S (greedy p t) else 0
  end.

(** A pattern with its replacement template, tried at the head of the
    remaining text: the length of the match (never 0 for the patterns
    here) and the expansion of the template. *)
Definition matcher : Type := str -> option (nat * str).

(** [(\w)\1{2,}] replaced by [\1]: a word character followed by at
    least two more copies of itself, as many as there are. *)
Definition stutter : matcher := fun s =>
  match s with
  | [] => None
  | c :: t =>
      if word_char c then
        let k := greedy (N.eqb c) t in
        if (2 <=? k)%nat then Some (S k, [c]) else None
      else None
  end.

(** [\s{2,}] replaced by one space. *)
Definition spaces : matcher := fun s =>
  let k := greedy ISSPACE s in
  if (2 <=? k)%nat then Some (k, [32%N]) else None.

(** [re.sub]: scan from the left; where the pattern matches, emit the
    replacement and resume after the match; elsewhere copy the
    character. [skip] counts the characters of the current match still
    to be passed over. *)
Fixpoint re_sub (m : matcher) (skip : nat) (s : str) : str :=
  match s with
  | [] => []
  | c :: t =>
      match skip with
      | S k => re_sub m k t
      | O =>
          match m s with
          | Some (n, repl) => repl ++ re_sub m (Nat.pred n) t
          | None => c :: re_sub m 0 t
          end
      end
  end.

(** [$] without MULTILINE: at the end, or before a final newline. *)
Definition at_dollar (s : str) : bool :=
  match s with
  | [] => true
  | [c] => (c =? 10)%N
  | _ => false
  end.

(** [re.search] of a one-character class followed by [$]. *)
Fixpoint search_class_dollar (cls : char -> bool) (s : str) : bool :=
  match s with
  | [] => false
  | c :: t => (cls c && at_dollar t) || search_class_dollar cls t
  end.

End Str.

End Py.

(* ================================================================== *)
(** * nlp.py: the linguistic heuristics                                *)
(* ================================================================== *)

Module Nlp.
Import Py.

(** What the code reads of spaCy: a loader of language models by name,
    which may fail, and for a loaded model the sentences of a text, each
    with its tokens and its covered text. *)
Record Token : Type := { tok_text : str; is_space : bool }.
Record Sent : Type := { sent_tokens : list Token; sent_text : str }.

Class Spacy : Type := {
  Language : Type;
  spacy_load : string -> result Language;
  doc_sents : Language -> str -> list Sent
}.

(** Python truth values the helpers return: [starts_with_bullet] hands
    back either the text itself or a boolean. *)
Inductive value : Type :=
| VStr (s : str)
| VBool (b : bool).

Definition truth (v : value) : bool :=
  match v with
  | VStr s => truthy s
  | VBool b => b
  end.

(** Supported language codes and spaCy models. *)
Definition LANG_MODELS : list (string * string) :=
  [ ("en", "en_core_web_sm");
    ("es", "es_core_news_sm");
    ("ja", "ja_core_news_sm") ]%string.

(** [d.get(k, default)] and [d[k]] on a dictionary with string keys. *)
Fixpoint dict_get {V : Type} (d : list (string * V)) (k : string) (default : V) : V :=
  match d with
  | [] => default
  | (k', v) :: d' => if String.eqb k k' then v else dict_get d' k default
  end.

Fixpoint dict_getitem {V : Type} (d : list (string * V)) (k : string) : result V :=
  match d with
  | [] => Raise KeyError
  | (k', v) :: d' => if String.eqb k k' then Ok v else dict_getitem d' k
  end.

(** [functools.lru_cache(maxsize)] around a function of a language code.
    The cache lists its entries, most recently used first. A hit returns
    the stored value and moves the entry to the front; a miss calls the
    function, stores a returned value at the front and drops the entries
    beyond [maxsize]; nothing is stored when the function raises. *)
Fixpoint cache_lookup {V : Type} (cache : list (string * V)) (k : string) : option V :=
  match cache with
  | [] => None
  | (k', v) :: cache' => if String.eqb k k' then Some v else cache_lookup cache' k
  end.

Definition cache_remove {V : Type} (cache : list (string * V)) (k : string)
    : list (string * V) :=
  filter (fun kv => negb (String.eqb k (fst kv))) cache.

Definition lru_cache {V : Type} (maxsize : nat) (f : string -> result V)
    (cache : list (string * V)) (k : string) : result V * list (string * V) :=
  match cache_lookup cache k with
  | Some v => (Ok v, (k, v) :: cache_remove cache k)
  | None =>
      match f k with
      | Ok v => (Ok v, firstn maxsize ((k, v) :: cache))
      | Raise e => (Raise e, cache)
      end
  end.

Section Heuristics.
Context {U : UnicodeDB} {SP : Spacy}.

(** [get_nlp]: the model of the language code, English when the code is
    not a key of [LANG_MODELS]; when loading raises, English is loaded
    in the handler. This is the body under the decorator;
    [cached_get_nlp] below adds the cache, which does not change what a
    call returns. *)
Definition get_nlp (lang_code : string) : result Language :=
  bind (dict_getitem LANG_MODELS "en") (fun en =>
  let model := dict_get LANG_MODELS lang_code en in
  try_except (spacy_load model)
    (fun _ => bind (dict_getitem LANG_MODELS "en") spacy_load)).

(** [get_nlp] as callers see it, with the cache passed along. *)
Definition cached_get_nlp (cache : list (string * Language)) (lang_code : string)
    : result Language * list (string * Language) :=
  lru_cache 3 get_nlp cache lang_code.

(** A series of calls, from a given cache. *)
Fixpoint resolve_all (cache : list (string * Language)) (codes : list string)
    : list (result Language) :=
  match codes with
  | [] => []
  | code :: codes' =>
      let (r, cache') := cached_get_nlp cache code in
      r :: resolve_all cache' codes'
  end.

(** The class [[.!?。！？]]. *)
Definition sentence_end (c : char) : bool :=
  existsb (N.eqb c) [46; 33; 63; 12290; 65281; 65311]%N.

Definition is_full_sentence (text : str) (lang_code : string) : result bool :=
  bind (get_nlp lang_code) (fun nlp =>
  let doc := doc_sents nlp text in
  Ok (existsb (fun sent =>
        let tokens := filter (fun t => negb (is_space t)) (sent_tokens sent) in
        (2 <? List.length tokens)%nat
        && search_class_dollar sentence_end (strip (sent_text sent)))
      doc)).

Definition is_all_caps (text : str) (lang_code : string) : bool :=
  if String.eqb lang_code "ja" then false
  else
    let letters := filter (fun c => isalpha [c]) text in
    truthy letters && forallb (fun c => isupper [c]) letters.

(** The test of one word in the loop of [is_title_case]:
    [w[0].isupper() and w[1:].islower()]. The words come out of
    [isalpha], so none is empty. *)
Definition title_word (w : str) : bool :=
  match w with
  | [] => false
  | c :: rest => isupper [c] && islower rest
  end.

Definition is_title_case (text : str) (lang_code : string) : bool :=
  if String.eqb lang_code "ja" then false
  else
    let words := filter isalpha (split text) in
    if negb (match words with [] => false | _ => true end) then false
    else forallb title_word words.

Definition bullets : list char :=
  [8226; 9679; 45; 42; 9642; 8227; 8211; 8212]%N.

(** [text and text[0] in bullets] *)
Definition starts_with_bullet (text : str) : result value :=
  if truthy text then
    bind (getitem text 0) (fun c => Ok (VBool (existsb (N.eqb c) bullets)))
  else Ok (VStr text).

Definition is_short (text : str) (max_words max_chars : nat) (lang_code : string) : bool :=
  if String.eqb lang_code "ja" then (len text <=? max_chars)%nat
  else (len text <=? max_chars)%nat && (List.length (split text) <=? max_words)%nat.

(** An [int] count as a [float]; exact below 2^53. *)
Definition float_of_nat (n : nat) : float :=
  PrimFloat.of_uint63 (Uint63.of_Z (Z.of_nat n)).

(** The [0] of the early returns is the float zero, which compares as
    Python's integer [0] does. *)
Definition uppercase_ratio (text : str) (lang_code : string) : float :=
  if String.eqb lang_code "ja" then 0%float
  else
    let letters := filter (fun c => isalpha [c]) text in
    if negb (truthy letters) then 0%float
    else (float_of_nat (List.length (filter (fun c => isupper [c]) letters))
          / float_of_nat (len letters))%float.

End Heuristics.

End Nlp.

(* ================================================================== *)
(** * process_pdfs.py: title, font levels, heading candidates          *)
(* ================================================================== *)

Module ProcessPdfs.
Import Py Nlp.

(** What the code reads of langdetect. *)
Class LangDetect : Type := {
  detect : str -> result string
}.

(** [words] of [clean_repetitions]: the loop keeps the set [seen] and
    the list [result]. *)
Definition dedup_step (st : list str * list str) (word : str) : list str * list str :=
  let (seen, result) := st in
  if in_dec str_eq_dec word seen then st
  else (word :: seen, result ++ [word]).

Section Cleaner.
Context {U : UnicodeDB}.

Definition clean_repetitions (text : str) : str :=
  let text := re_sub stutter 0 text in
  let text := re_sub spaces 0 text in
  let words := split text in
  let '(_, result) := fold_left dedup_step words ([], []) in
  join [32%N] result.

End Cleaner.

(** A span as [extract_blocks_with_metadata] builds it. *)
Record Block : Type := {
  text : str;
  font : str;
  size : float;
  flags : Z;
  bbox : float * float * float * float;
  page : Z;
  origin : float * float
}.

Inductive Level : Type := H1 | H2 | H3.

(** An entry of the outline. *)
Record HeadingEntry : Type := {
  level : Level;
  h_text : str;
  h_page : Z
}.

(** [max] of a sequence after its first element: a later item replaces
    the current maximum when it compares greater. *)
Definition py_max (first : float) (rest : list float) : float :=
  fold_left (fun m x => if PrimFloat.ltb m x then x else m) rest first.

(** The builtin [sorted(l, key=...)] on float keys. Python promises a
    stable sort that compares the keys with [<] only; the order it
    returns when [<] does not order the keys (a NaN among them) depends
    on the implementation and its version, so the builtin is an
    interface, as the other libraries are. *)
Class PySorted : Type := {
  sorted : forall A : Type, (A -> float) -> list A -> list A
}.
Arguments sorted {PySorted A} key l.



(** The hard-coded font map. *)
Definition compute_font_stats (blocks : list Block) : Level -> float :=
  fun lv =>
    match lv with
    | H1 => 20.04%float
    | H2 => 15.96%float
    | H3 => 12.0%float
    end.

Definition heading_level (block : Block) (font_stats : Level -> float) : option Level :=
  let size := size block in
  if PrimFloat.ltb (PrimFloat.abs (size - font_stats H1)) 0.1 then Some H1
  else if PrimFloat.ltb (PrimFloat.abs (size - font_stats H2)) 0.1 then Some H2
  else if PrimFloat.ltb (PrimFloat.abs (size - font_stats H3)) 0.1 then Some H3
  else None.

Section Pipeline.
Context {U : UnicodeDB} {SP : Spacy} {LD : LangDetect} {PS : PySorted}.

Definition detect_language (blocks : list Block) : result string :=
  let texts := map text (filter (fun b => truthy (text b)) blocks) in
  let sample := join [32%N] (firstn 20 texts) in
  try_except (bind (detect sample) (fun lang => Ok lang))
    (fun _ => Ok "en"%string).

Definition detect_title (blocks : list Block) (lang_code : string) : str :=
  let first_page_blocks :=
    filter (fun b => (page b =? 1)%Z && truthy (text b)) blocks in
  match first_page_blocks with
  | [] => []
  | b0 :: rest =>
      let max_size := py_max (size b0) (map size rest) in
      let title_blocks :=
        filter (fun b => PrimFloat.ltb (PrimFloat.abs (size b - max_size)) 0.5)
          first_page_blocks in
      let title_blocks := sorted (fun b => snd (origin b)) title_blocks in
      let title := join [32%N] (map text title_blocks) in
      let title := clean_repetitions title in
      strip title
  end.

Definition is_heading_candidate (block : Block) (lang_code : string) : result bool :=
  let text := text block in
  bind (if negb (truthy text) then Ok true
        else bind (starts_with_bullet text) (fun sb =>
             if truth sb then Ok true
             else Ok (negb (is_short text 14 80 lang_code))))
    (fun reject =>
  if reject then Ok false
  else bind (is_full_sentence text lang_code) (fun full =>
  if full then Ok false
  else if is_all_caps text lang_code
          || is_title_case text lang_code
          || PrimFloat.ltb 0.5 (uppercase_ratio text lang_code)
       then Ok true
       else Ok false)).

(** The body of the loop of [extract_outline]. *)
Definition outline_step (font_stats : Level -> float) (lang_code : string)
    (outline : list HeadingEntry) (block : Block) : result (list HeadingEntry) :=
  match heading_level block font_stats with
  | None => Ok outline
  | Some lv =>
      bind (is_heading_candidate block lang_code) (fun cand =>
      if cand then
        Ok (outline ++ [ {| level := lv; h_text := text block; h_page := (page block - 1)%Z |} ])
      else Ok outline)
  end.

Definition extract_outline (blocks : list Block) (lang_code : string)
    : result (list HeadingEntry) :=
  let font_stats := compute_font_stats blocks in
  fold_left (fun acc block => bind acc (fun outline =>
               outline_step font_stats lang_code outline block))
    blocks (Ok []).

End Pipeline.

(** ** Reading a document and writing its result *)

(** What the code reads of PyMuPDF: [fitz.open], which may raise, and
    for each page of the opened document the blocks of
    [page.get_text("dict")]; a block has a type and, when the type is 0
    (text), lines, each a list of spans. *)
Record RawSpan : Type := {
  span_text : str;
  span_font : str;
  span_size : float;
  span_flags : Z;
  span_bbox : float * float * float * float
}.

Record PdfBlock : Type := {
  block_type : Z;
  block_lines : list (list RawSpan)
}.

Definition Page : Type := list PdfBlock.
Definition Document : Type := list Page.

Class PyMuPDF : Type := {
  fitz_open : string -> result Document
}.

(** The record [process_pdf] hands to [json.dump]. *)
Record DocumentResult : Type := {
  title : str;
  outline : list HeadingEntry;
  language : string
}.

(** What the code uses of the file system: creating the output
    directory, listing the PDF files of a directory, the stem of a path,
    the path of a name in a directory, and opening a file and dumping a
    record into it, which may raise. *)
Class FileSystem : Type := {
  mkdir : string -> result unit;
  glob_pdf : string -> list string;
  stem : string -> string;
  joinpath : string -> string -> string;
  write_json : string -> DocumentResult -> result unit
}.

(** The files written in full so far, the last one first: the path and
    the record serialised into it. *)
Definition Files : Type := list (string * DocumentResult).

Section Documents.
Context {U : UnicodeDB} {SP : Spacy} {LD : LangDetect} {PS : PySorted}
        {MU : PyMuPDF} {FS : FileSystem}.

(** The dictionary appended for one span of page [page_num]. *)
Definition block_of_span (page_num : nat) (span : RawSpan) : Block :=
  let '(x0, y0, _, _) := span_bbox span in
  {| text := strip (span_text span);
     font := span_font span;
     size := span_size span;
     flags := span_flags span;
     bbox := span_bbox span;
     page := (Z.of_nat page_num + 1)%Z;
     origin := (x0, y0) |}.

(** The three inner loops, for the blocks of one page. *)
Definition page_blocks (page_num : nat) (page : Page) : list Block :=
  flat_map (fun block =>
              if (block_type block =? 0)%Z then
                flat_map (fun line => map (block_of_span page_num) line)
                  (block_lines block)
              else [])
    page.

(** The loop over [range(len(doc))], from page [page_num] on. *)
Fixpoint document_blocks (page_num : nat) (doc : list Page) : list Block :=
  match doc with
  | [] => []
  | page :: rest => page_blocks page_num page ++ document_blocks (S page_num) rest
  end.

Definition extract_blocks_with_metadata (pdf_path : string) : result (list Block) :=
  bind (fitz_open pdf_path) (fun doc => Ok (document_blocks 0 doc)).

(** [result] of [process_pdf]. *)
Definition document_result (pdf_path : string) : result DocumentResult :=
  bind (extract_blocks_with_metadata pdf_path) (fun blocks =>
  bind (detect_language blocks) (fun lang_code =>
  let title := detect_title blocks lang_code in
  bind (extract_outline blocks lang_code) (fun outline =>
  Ok {| title := title; outline := outline; language := lang_code |}))).

(** [process_pdf]: the file is written once the result is complete; an
    exception, of the analysis or of the writing, adds no file written
    in full. *)
Definition process_pdf (pdf_path output_json : string) (files : Files)
    : Files * result unit :=
  match document_result pdf_path with
  | Ok result =>
      match write_json output_json result with
      | Ok _ => ((output_json, result) :: files, Ok tt)
      | Raise e => (files, Raise e)
      end
  | Raise e => (files, Raise e)
  end.

(** The loop of [process_pdfs]. *)
Fixpoint process_each (output_dir : string) (pdf_files : list string) (files : Files)
    : Files * result unit :=
  match pdf_files with
  | [] => (files, Ok tt)
  | pdf_file :: rest =>
      let output_file := joinpath output_dir (stem pdf_file ++ ".json")%string in
      match process_pdf pdf_file output_file files with
      | (files', Ok _) => process_each output_dir rest files'
      | (files', Raise e) => (files', Raise e)
      end
  end.

Definition process_pdfs (input_dir output_dir : string) (files : Files)
    : Files * result unit :=
  match mkdir output_dir with
  | Raise e => (files, Raise e)
  | Ok _ =>
      let pdf_files := glob_pdf input_dir in
      process_each output_dir pdf_files files
  end.

End Documents.

End ProcessPdfs.

(* ================================================================== *)
(** * The specification's reading of the operations                    *)
(* ================================================================== *)

Module Spec.
Import Py Nlp ProcessPdfs.

Section Reference.
Context {U : UnicodeDB}.

(** The maximal runs of identical consecutive characters of a text,
    each with its length. *)
Fixpoint runs (s : str) : list (char * nat) :=
  match s with
  | [] => []
  | c :: t =>
      match runs t with
      | (d, n) :: rs => if (c =? d)%N then (d, S n) :: rs else (c, 1) :: (d, n) :: rs
      | [] => [(c, 1)]
      end
  end.

(** Step 1 of the repetition cleaner: every maximal run of 3 or more
    copies of a character of the class [p] becomes one copy. *)
Definition collapse_runs (p : char -> bool) (s : str) : str :=
  flat_map (fun r => if p (fst r) && (3 <=? snd r)%nat then [fst r]
                     else repeat (fst r) (snd r))
    (runs s).

(** The maximal blocks of white space and of other characters. *)
Fixpoint segments (s : str) : list (bool * str) :=
  match s with
  | [] => []
  | c :: t =>
      match segments t with
      | (b, seg) :: rest =>
          if Bool.eqb (ISSPACE c) b then (b, c :: seg) :: rest
          else (ISSPACE c, [c]) :: (b, seg) :: rest
      | [] => [(ISSPACE c, [c])]
      end
  end.

(** Step 2: every run of 2 or more white-space characters becomes one
    space. *)
Definition squeeze_spaces (s : str) : str :=
  flat_map (fun r => if fst r && (2 <=? List.length (snd r))%nat then [32%N]
                     else snd r)
    (segments s).

(** Step 3: only the first occurrence of each token, in first-seen
    order. *)
Fixpoint first_occurrences (l : list str) : list str :=
  match l with
  | [] => []
  | w :: ws =>
      w :: filter (fun v => if str_eq_dec v w then false else true)
             (first_occurrences ws)
  end.

(** The three steps, the tokens joined by one space; [p] is the class
    of characters step 1 applies to. *)
Definition three_steps (p : char -> bool) (s : str) : str :=
  join [32%N] (first_occurrences (split (squeeze_spaces (collapse_runs p s)))).

(** A token in title case, character by character: the first uppercase,
    every other one lowercase (none, for a token of one character). *)
Definition title_token (w : str) : bool :=
  match w with
  | [] => false
  | c :: rest => ISUPPER c && forallb ISLOWER rest
  end.

(** A text in which the pattern of step 1 matches nowhere. *)
Fixpoint no_stutter (s : str) : bool :=
  match s with
  | [] => true
  | c :: t =>
      match stutter (c :: t) with
      | Some _ => false
      | None => no_stutter t
      end
  end.

(** The characters of words, and the texts that start with one. *)
Definition other (c : char) : bool := negb (ISSPACE c).

Definition starts_other (s : str) : bool :=
  match s with
  | [] => false
  | d :: _ => other d
  end.

(** A word of [split]: not empty, no white space in it. *)
Definition token (w : str) : Prop := w <> [] /\ forallb other w = true.

(** The font table, in the order the levels are tried. *)
Definition font_table : list (Level * float) :=
  [ (H1, 20.04%float); (H2, 15.96%float); (H3, 12.0%float) ].

Definition within (tol a b : float) : bool :=
  PrimFloat.ltb (PrimFloat.abs (a - b)) tol.

(** The level of a size: the first entry of the table within 0.1 of it. *)
Definition level_of_size (sz : float) : option Level :=
  option_map fst (find (fun e => within 0.1 sz (snd e)) font_table).

End Reference.

Section Candidates.
Context {U : UnicodeDB} {SP : Spacy}.

(** The conditions under which a span is a heading of level [lv]. *)
Definition Qualifies (blocks : list Block) (lang_code : string)
    (b : Block) (lv : Level) : Prop :=
  text b <> []
  /\ (forall c, hd_error (text b) = Some c -> ~ In c bullets)
  /\ is_short (text b) 14 80 lang_code = true
  /\ is_full_sentence (text b) lang_code = Ok false
  /\ (is_all_caps (text b) lang_code = true
      \/ is_title_case (text b) lang_code = true
      \/ PrimFloat.ltb 0.5 (uppercase_ratio (text b) lang_code) = true)
  /\ heading_level b (compute_font_stats blocks) = Some lv.

(** A cache that holds, for a language code, only what [get_nlp]
    returns for it. *)
Definition coherent (cache : list (string * Language)) : Prop :=
  Forall (fun kv => get_nlp (fst kv) = Ok (snd kv)) cache.

Definition entry_of (b : Block) (lv : Level) : HeadingEntry :=
  {| level := lv; h_text := text b; h_page := (page b - 1)%Z |}.

(** The entry one pass of the loop of [extract_outline] appends for a
    span, if any. *)
Definition emitted (blocks : list Block) (lang_code : string) (b : Block)
    : option HeadingEntry :=
  match heading_level b (compute_font_stats blocks), is_heading_candidate b lang_code with
  | Some lv, Ok true => Some (entry_of b lv)
  | _, _ => None
  end.

End Candidates.

(** The predicates of the heuristic library and the conditions of a
    heading, written from the words of the specification. *)
Section Conditions.
Context {U : UnicodeDB} {SP : Spacy}.

(** The script without letter case: the language code ja. *)
Definition caseless (lang_code : string) : bool := String.eqb lang_code "ja".

(** The bullet glyphs: the bullet, the black circle, the hyphen, the
    asterisk, the small black square, the triangular bullet, the en dash
    and the em dash. *)
Definition bullet_glyphs : list char :=
  [8226; 9679; 45; 42; 9642; 8227; 8211; 8212]%N.

Definition starts_with_bullet_glyph (text : str) : bool :=
  match text with
  | [] => false
  | c :: _ => existsb (N.eqb c) bullet_glyphs
  end.

(** At most [max_chars] characters and, where words are delimited by
    white space, at most [max_words] of them. *)
Definition short (text : str) (lang_code : string) (max_words max_chars : nat) : bool :=
  if caseless lang_code then (List.length text <=? max_chars)%nat
  else (List.length text <=? max_chars)%nat
       && (List.length (split text) <=? max_words)%nat.

(** The marks that end a sentence: the full stop, the exclamation mark,
    the question mark and their full-width forms. *)
Definition terminators : list char := [46; 33; 63; 12290; 65281; 65311]%N.

Definition ends_with_terminator (s : str) : bool :=
  match rev s with
  | [] => false
  | c :: _ => existsb (N.eqb c) terminators
  end.

(** The segmenter finds a sentence of more than 2 tokens that are not
    white space, whose trimmed text ends with a terminator. *)
Definition full_sentence (nlp : Language) (text : str) : bool :=
  existsb (fun sent =>
             (2 <? List.length (filter (fun t => negb (is_space t)) (sent_tokens sent)))%nat
             && ends_with_terminator (strip (sent_text sent)))
    (doc_sents nlp text).

Definition alphabetic (text : str) : str := filter ISALPHA text.

(** At least one alphabetic character, and every one of them uppercase. *)
Definition all_caps (text : str) (lang_code : string) : bool :=
  negb (caseless lang_code)
  && match alphabetic text with
     | [] => false
     | letters => forallb ISUPPER letters
     end.

(** The tokens delimited by white space that are made of alphabetic
    characters only. *)
Definition alphabetic_tokens (text : str) : list str :=
  filter (forallb ISALPHA) (split text).

(** Strict title case: there is an alphabetic token, and each one has
    its first character uppercase and all the remaining ones lowercase;
    a token of one character has no remaining ones. *)
Definition strict_title_case (text : str) (lang_code : string) : bool :=
  negb (caseless lang_code)
  && match alphabetic_tokens text with
     | [] => false
     | tokens => forallb title_token tokens
     end.

(** More than half of the alphabetic characters are uppercase. *)
Definition mostly_uppercase (text : str) (lang_code : string) : bool :=
  negb (caseless lang_code)
  && (List.length (alphabetic text)
      <? 2 * List.length (filter ISUPPER (alphabetic text)))%nat.

(** The six conditions of a heading, for a reading [title_case] of
    title case, and the outline they give: one entry per span that
    qualifies, with its level, its text and its page minus one. *)
Definition qualifies_with (title_case : str -> string -> bool)
    (nlp : Language) (lang_code : string) (b : Block) : bool :=
  match strip (text b) with [] => false | _ => true end
  && negb (starts_with_bullet_glyph (text b))
  && short (text b) lang_code 14 80
  && negb (full_sentence nlp (text b))
  && (all_caps (text b) lang_code
      || title_case (text b) lang_code
      || mostly_uppercase (text b) lang_code)
  && match level_of_size (size b) with Some _ => true | None => false end.

Definition outline_with (title_case : str -> string -> bool)
    (nlp : Language) (lang_code : string) (blocks : list Block) : list HeadingEntry :=
  flat_map (fun b =>
              if qualifies_with title_case nlp lang_code b then
                match level_of_size (size b) with
                | Some lv => [entry_of b lv]
                | None => []
                end
              else [])
    blocks.

(** The conditions and the outline of the claim: with strict title
    case. *)
Definition qualifies : Language -> string -> Block -> bool :=
  qualifies_with strict_title_case.

Definition outline_of : Language -> string -> list Block -> list HeadingEntry :=
  outline_with strict_title_case.

End Conditions.




(** The key of the title sort, and what it means for [sel] to be the
    spans [l] sorted by it: the same spans, each at most as high as the
    next, spans of equal height in the order they had. *)
Definition height (b : Block) : float := snd (origin b).

Definition ascending (a b : Block) : Prop :=
  PrimFloat.leb (height a) (height b) = true.

Definition StableSorted (l sel : list Block) : Prop :=
  Permutation sel l
  /\ Sorted ascending sel
  /\ forall k, filter (fun b => PrimFloat.eqb (height b) k) sel
               = filter (fun b => PrimFloat.eqb (height b) k) l.

End Spec.

(* ================================================================== *)
(** * nlp.py: the numbering patterns                                   *)
(* ================================================================== *)

Module Re.
Import Py.

(** The regular expressions of [starts_with_numbering]: classes of one
    character, sequences, alternatives and repetitions. *)
Inductive regex : Type :=
| Empty
| Eps
| Class (p : char -> bool)
| Seq (r1 r2 : regex)
| Alt (r1 r2 : regex)
| Star (r : regex).

(** [r+] *)
Definition Plus (r : regex) : regex := Seq r (Star r).

Fixpoint nullable (r : regex) : bool :=
  match r with
  | Empty => false
  | Eps => true
  | Class _ => false
  | Seq r1 r2 => nullable r1 && nullable r2
  | Alt r1 r2 => nullable r1 || nullable r2
  | Star _ => true
  end.

(** What is left of [r] to match once [c] has been read. *)
Fixpoint deriv (c : char) (r : regex) : regex :=
  match r with
  | Empty => Empty
  | Eps => Empty
  | Class p => if p c then Eps else Empty
  | Seq r1 r2 =>
      if nullable r1 then Alt (Seq (deriv c r1) r2) (deriv c r2)
      else Seq (deriv c r1) r2
  | Alt r1 r2 => Alt (deriv c r1) (deriv c r2)
  | Star r1 => Seq (deriv c r1) (Star r1)
  end.

(** The truth value of [re.match(r, s)]: the pattern matches some
    prefix of [s]. *)
Fixpoint re_match (r : regex) (s : str) : bool :=
  nullable r
  || match s with
     | [] => false
     | c :: t => re_match (deriv c r) t
     end.

(** The words a pattern matches. *)
Inductive lang : regex -> str -> Prop :=
| lang_eps : lang Eps []
| lang_class (p : char -> bool) (c : char) : p c = true -> lang (Class p) [c]
| lang_seq (r1 r2 : regex) (u v : str) :
    lang r1 u -> lang r2 v -> lang (Seq r1 r2) (u ++ v)
| lang_alt_l (r1 r2 : regex) (u : str) : lang r1 u -> lang (Alt r1 r2) u
| lang_alt_r (r1 r2 : regex) (u : str) : lang r2 u -> lang (Alt r1 r2) u
| lang_star_nil (r : regex) : lang (Star r) []
| lang_star_cons (r : regex) (u v : str) :
    lang r u -> lang (Star r) v -> lang (Star r) (u ++ v).

End Re.

Module Numbering.
Import Py Re.

(** The table of decimal digits ([Py_UNICODE_ISDECIMAL]), which [\d]
    consults. *)
Class UnicodeDigits : Type := {
  ISDECIMAL : char -> bool
}.

Definition basic_latin_digits : UnicodeDigits := {|
  ISDECIMAL := fun c => in_range 48 57 c
|}.

Section Patterns.
Context {U : UnicodeDB} {UD : UnicodeDigits}.

Definition is_char (x : char) : char -> bool := fun c => (c =? x)%N.

(** [[IVXLCDM]] *)
Definition roman (c : char) : bool :=
  existsb (N.eqb c) [73; 86; 88; 76; 67; 68; 77]%N.

Definition numbering_patterns : list regex :=
  [ Seq (Plus (Class ISDECIMAL)) (Star (Seq (Class (is_char 46%N)) (Plus (Class ISDECIMAL))));
    Seq (Plus (Class roman)) (Class (is_char 46%N));
    Seq (Class (in_range 65 90)) (Class (is_char 41%N)) ].

Definition starts_with_numbering (text : str) : bool :=
  let text := strip text in
  existsb (fun pat => re_match pat text) numbering_patterns.

End Patterns.
End Numbering.

(* ================================================================== *)
(** * Views of the code used to state its properties                   *)
(* ================================================================== *)

Module Views.
Import Py Nlp ProcessPdfs.

Section Case.
Context {U : UnicodeDB}.

(** The alphabetic characters of a text, and the uppercase ones among
    them: the two lists [uppercase_ratio] counts. *)
Definition letters (text : str) : str := filter (fun c => isalpha [c]) text.
Definition uppers (text : str) : str := filter (fun c => isupper [c]) (letters text).

(** The quotient [uppercase_ratio] returns for [k] uppercase characters
    among [n] letters. *)
Definition ratio_of (k n : nat) : float := (float_of_nat k / float_of_nat n)%float.

(** For up to 80 letters the quotient is above one half exactly when
    the uppercase letters are the majority, and it lies between 0 and 1. *)
Definition ratio_table_ok : bool :=
  forallb (fun n =>
    forallb (fun k =>
      let r := ratio_of k n in
      Bool.eqb (PrimFloat.ltb 0.5 r) (n <? 2 * k)%nat
      && PrimFloat.leb 0 r && PrimFloat.leb r 1)
      (seq 0 (S n)))
    (seq 1 80).

(** The tests of [is_heading_candidate] that come before the sentence
    test: a non-empty text that starts with no bullet and is short. *)
Definition passes_first_tests (lang_code : string) (b : Block) : bool :=
  match text b with
  | [] => false
  | c :: _ => negb (existsb (N.eqb c) bullets) && is_short (text b) 14 80 lang_code
  end.

(** The spans for which [extract_outline] calls [is_full_sentence]. *)
Definition reaches_sentence_test (lang_code : string) (b : Block) : bool :=
  match heading_level b (compute_font_stats []) with
  | None => false
  | Some _ => passes_first_tests lang_code b
  end.

(** The last test of [is_heading_candidate]. *)
Definition case_signal (lang_code : string) (text : str) : bool :=
  is_all_caps text lang_code
  || is_title_case text lang_code
  || PrimFloat.ltb 0.5 (uppercase_ratio text lang_code).

End Case.

(** The characters of the words, and one separator between two words. *)
Fixpoint total_length (ws : list str) : nat :=
  match ws with
  | [] => 0
  | w :: ws' => List.length w + total_length ws'
  end.

Definition joined_length (ws : list str) : nat :=
  total_length ws + Nat.pred (List.length ws).

(** The upper left corner of the box of a span. *)
Definition bbox_corner (b : Block) : float * float :=
  let '(x0, y0, _, _) := bbox b in (x0, y0).

(** The last character of a string, when it has one. *)
Definition last_char (s : str) : option char := hd_error (rev s).

Section Batch.
Context {U : UnicodeDB} {SP : Spacy} {LD : LangDetect} {PS : PySorted}
        {MU : PyMuPDF} {FS : FileSystem}.

(** The path [process_pdfs] writes the result of a PDF to. *)
Definition output_path (output_dir pdf_file : string) : string :=
  joinpath output_dir (stem pdf_file ++ ".json")%string.

(** The files to write for a list of PDFs, in their order. *)
Definition written_for (output_dir : string) (pdf_files : list string) : Files :=
  flat_map (fun pdf_file =>
              match document_result pdf_file with
              | Ok result => [(output_path output_dir pdf_file, result)]
              | Raise _ => []
              end)
    pdf_files.

(** The PDF gets a result and the result is written. *)
Definition completes (output_dir pdf_file : string) : Prop :=
  exists r,
    document_result pdf_file = Ok r
    /\ write_json (output_path output_dir pdf_file) r = Ok tt.

(** The PDF raises [e]: in its analysis, or when its result is written. *)
Definition fails_with (output_dir pdf_file : string) (e : exn) : Prop :=
  document_result pdf_file = Raise e
  \/ exists r,
       document_result pdf_file = Ok r
       /\ write_json (output_path output_dir pdf_file) r = Raise e.

End Batch.

Section ModelCache.
Context {U : UnicodeDB} {SP : Spacy}.

(** The cache of [get_nlp] after a sequence of calls. *)
Fixpoint cache_after (cache : list (string * Language)) (codes : list string)
    : list (string * Language) :=
  match codes with
  | [] => cache
  | code :: codes' => cache_after (snd (cached_get_nlp cache code)) codes'
  end.

End ModelCache.

End Views.

(* ================================================================== *)
(** * Stand-ins for the external services                              *)
(* ================================================================== *)

Module Fixtures.
Import Py Nlp ProcessPdfs.

(** A pipeline whose models all load: one sentence per text, tokens at
    white space. *)
Definition whitespace_pipeline {U : UnicodeDB} : Spacy := {|
  Language := unit;
  spacy_load := fun _ => Ok tt;
  doc_sents := fun _ text =>
    [ {| sent_tokens := map (fun w => {| tok_text := w; is_space := false |}) (split text);
         sent_text := text |} ]
|}.

(** An installation without any model. *)
Definition no_models : Spacy := {|
  Language := unit;
  spacy_load := fun _ => Raise OSError;
  doc_sents := fun _ _ => []
|}.

(** An installation with the Spanish model missing. *)
Definition no_spanish : Spacy := {|
  Language := string;
  spacy_load := fun model =>
    if String.eqb model "es_core_news_sm" then Raise OSError else Ok model;
  doc_sents := fun _ _ => []
|}.

(** A language identifier that fails on every sample. *)
Definition failing_detector : LangDetect := {|
  detect := fun _ => Raise LangDetectException
|}.

Definition span (t : str) (sz : float) (pg : Z) (y : float) : Block := {|
  text := t; font := u "Arial"; size := sz; flags := 0%Z;
  bbox := (0, y, 0, y)%float; page := pg; origin := (0, y)%float
|}.

(** A stable sort, which stands for the builtin on the examples: each
    item is inserted before the first item that is not below it. *)
Fixpoint insert_by {A : Type} (key : A -> float) (x : A) (l : list A) : list A :=
  match l with
  | [] => [x]
  | y :: l' =>
      if PrimFloat.ltb (key y) (key x) then y :: insert_by key x l'
      else x :: l
  end.

Definition insertion_sort {A : Type} (key : A -> float) (l : list A) : list A :=
  fold_right (insert_by key) [] l.

Definition stable_sort : PySorted := {|
  sorted := @insertion_sort
|}.

(** A heading in title case with a word of one letter, in the size of
    the first level. *)
Definition one_letter_heading : Block := span (u "I Am Here") 20.04 1 50.


End Fixtures.

(** A sample document and a sample directory. *)

Module Samples.
Import Py Nlp ProcessPdfs Fixtures.

(** A detector that always answers en. *)
Definition english_detector : LangDetect := {|
  detect := fun _ => Ok "en"%string
|}.

Definition raw (t : str) (sz y : float) : RawSpan := {|
  span_text := t; span_font := u "Arial"; span_size := sz; span_flags := 0%Z;
  span_bbox := (72, y, 300, y + sz)%float
|}.

(** A document of two pages: a title line and a heading, with a
    picture between them, then a heading and a sentence. *)
Definition sample_document : Document :=
  [ [ {| block_type := 0; block_lines := [ [ raw (u "  TITLE OF PAPER ") 24 10 ] ] |};
      {| block_type := 1; block_lines := [] |};
      {| block_type := 0; block_lines := [ [ raw (u "Introduction") 20.04 50 ] ] |} ];
    [ {| block_type := 0;
         block_lines := [ [ raw (u "Related Work") 15.96 20 ];
                          [ raw (u "This describes the background.") 12 80 ] ] |} ] ].

(** A directory with three PDF files, the second one unreadable. *)
Definition sample_files : PyMuPDF := {|
  fitz_open := fun path =>
    if String.eqb path "in/broken.pdf" then Raise OSError else Ok sample_document
|}.

Definition sample_directory : FileSystem := {|
  mkdir := fun _ => Ok tt;
  glob_pdf := fun _ => ["in/a.pdf"; "in/broken.pdf"; "in/c.pdf"]%string;
  stem := fun path =>
    if String.eqb path "in/a.pdf" then "a"
    else if String.eqb path "in/broken.pdf" then "broken"
    else "c";
  joinpath := fun dir name => (dir ++ "/" ++ name)%string;
  write_json := fun _ _ => Ok tt
|}%string.

(** The same directory without the unreadable file. *)
Definition clean_directory : FileSystem := {|
  mkdir := fun _ => Ok tt;
  glob_pdf := fun _ => ["in/a.pdf"; "in/c.pdf"]%string;
  stem := fun path => if String.eqb path "in/a.pdf" then "a" else "c";
  joinpath := fun dir name => (dir ++ "/" ++ name)%string;
  write_json := fun _ _ => Ok tt
|}%string.

End Samples.

(* ================================================================== *)
(** * Properties                                                       *)
(* ================================================================== *)

Import Py Nlp ProcessPdfs Spec.

(** ** The Basic Latin tables satisfy the laws *)

Lemma basic_latin_laws : UnicodeLaws basic_latin.
Proof.
  split.
  - intros c _. repeat split.
  - intros c. cbn. unfold in_range. intros H.
    apply andb_true_iff in H. destruct H as [H1 H2].
    apply N.leb_le in H1. apply andb_false_iff. right.
    apply N.leb_gt. lia.
  - intros c _. reflexivity.
Qed.

(** ** Texts of the Basic Latin block under any table *)

Section BasicLatin.
Context {U : UnicodeDB} {L : UnicodeLaws U}.

Lemma space_is_space : ISSPACE 32%N = true.
Proof.
  destruct (basic_latin_block 32%N eq_refl) as (_ & _ & _ & _ & H & _).
  rewrite H. reflexivity.
Qed.

Lemma ascii_cons (c : char) (t : str) :
  ascii (c :: t) = true -> same_class U basic_latin c /\ ascii t = true.
Proof.
  cbn [ascii forallb]. intros H. apply andb_true_iff in H. destruct H as [Hc Ht].
  split; [|assumption]. apply basic_latin_block. now apply N.ltb_lt.
Qed.

Lemma split_ascii (s : str) :
  ascii s = true -> @split U s = @split basic_latin s.
Proof.
  induction s as [|c t IH]; intros H; [reflexivity|].
  destruct (ascii_cons c t H) as [(_ & _ & _ & _ & Hc & _) Ht].
  cbn [split]. rewrite Hc, (IH Ht).
  destruct t as [|d t']; [reflexivity|].
  destruct (ascii_cons d t' Ht) as [(_ & _ & _ & _ & Hd & _) _].
  now rewrite Hd.
Qed.

Lemma split_keeps_ascii (V : UnicodeDB) (s : str) :
  ascii s = true -> Forall (fun w => ascii w = true) (@split V s).
Proof.
  induction s as [|c t IH]; intros H; [constructor|].
  assert (Hc : ascii [c] = true).
  { cbn [ascii forallb] in *. apply andb_true_iff in H. now rewrite (proj1 H). }
  assert (Ht : ascii t = true).
  { cbn [ascii forallb] in *. apply andb_true_iff in H. exact (proj2 H). }
  specialize (IH Ht). cbn [split].
  destruct (@ISSPACE V c); [assumption|].
  destruct t as [|d t']; [repeat constructor; assumption|].
  destruct (@ISSPACE V d); [constructor; assumption|].
  destruct (@split V (d :: t')) as [|w ws]; [repeat constructor; assumption|].
  inversion IH; subst. constructor; [|assumption].
  cbn [ascii forallb] in *. apply andb_true_iff in Hc. rewrite (proj1 Hc). assumption.
Qed.

Lemma isalpha_ascii (w : str) :
  ascii w = true -> @isalpha U w = @isalpha basic_latin w.
Proof.
  intros H. unfold isalpha. f_equal.
  induction w as [|c t IH]; [reflexivity|].
  destruct (ascii_cons c t H) as [(Hc & _) Ht].
  cbn [forallb]. now rewrite Hc, (IH Ht).
Qed.

Lemma islower_ascii (w : str) :
  ascii w = true -> @islower U w = @islower basic_latin w.
Proof.
  intros H.
  assert (Hscan : forall cased,
            cased_scan (fun c => @ISUPPER U c || @ISTITLE U c) (@ISLOWER U) cased w
            = cased_scan (fun c => @ISUPPER basic_latin c || @ISTITLE basic_latin c)
                (@ISLOWER basic_latin) cased w).
  { induction w as [|c t IH]; intros cased; [reflexivity|].
    destruct (ascii_cons c t H) as [(_ & Hu & Hl & Hti & _) Ht].
    cbn [cased_scan]. now rewrite Hu, Hl, Hti, (IH Ht). }
  unfold islower. destruct w as [|c [|d t]]; try apply Hscan.
  destruct (ascii_cons c [] H) as [(_ & _ & Hl & _) _]. exact Hl.
Qed.

Lemma title_word_ascii (w : str) :
  ascii w = true -> @title_word U w = @title_word basic_latin w.
Proof.
  intros H. destruct w as [|c rest]; [reflexivity|].
  destruct (ascii_cons c rest H) as [(_ & Hu & _) Ht].
  unfold title_word, isupper. now rewrite Hu, (islower_ascii rest Ht).
Qed.

(** On a text of the Basic Latin block, [is_title_case] is what the
    Basic Latin tables make it. *)
Lemma is_title_case_ascii (text : str) (lang_code : string) :
  ascii text = true ->
  @is_title_case U text lang_code = @is_title_case basic_latin text lang_code.
Proof.
  intros H. unfold is_title_case.
  destruct (String.eqb lang_code "ja"); [reflexivity|].
  rewrite (split_ascii text H).
  pose proof (split_keeps_ascii basic_latin text H) as Hw.
  assert (Hf : filter (@isalpha U) (@split basic_latin text)
               = filter (@isalpha basic_latin) (@split basic_latin text)).
  { apply filter_ext_in. intros w Hin. rewrite Forall_forall in Hw.
    apply isalpha_ascii. now apply Hw. }
  rewrite Hf.
  assert (Hall : Forall (fun w => ascii w = true)
                   (filter (@isalpha basic_latin) (@split basic_latin text))).
  { rewrite Forall_forall in *. intros w Hin. apply filter_In in Hin. now apply Hw. }
  assert (Hfa : forall l, Forall (fun w => ascii w = true) l ->
                forallb (@title_word U) l = forallb (@title_word basic_latin) l).
  { intros l Hl. induction Hl as [|v vs Hv Hvs IH]; [reflexivity|].
    cbn [forallb]. now rewrite (title_word_ascii v Hv), IH. }
  now rewrite (Hfa _ Hall).
Qed.

(** *** The substitutions *)

Lemma re_sub_agree (m1 m2 : matcher) :
  (forall s, ascii s = true -> m1 s = m2 s) ->
  forall (s : str) (skip : nat), ascii s = true -> re_sub m1 skip s = re_sub m2 skip s.
Proof.
  intros Hm. induction s as [|c t IH]; intros skip H; [reflexivity|].
  assert (Ht : ascii t = true) by (apply (ascii_cons c t H)).
  cbn [re_sub]. destruct skip as [|k]; [|now apply IH].
  rewrite (Hm (c :: t) H). destruct (m2 (c :: t)) as [[n repl]|]; now rewrite IH.
Qed.

Lemma re_sub_keeps_ascii (m : matcher) :
  (forall s n repl, ascii s = true -> m s = Some (n, repl) -> ascii repl = true) ->
  forall (s : str) (skip : nat), ascii s = true -> ascii (re_sub m skip s) = true.
Proof.
  intros Hm. induction s as [|c t IH]; intros skip H; [reflexivity|].
  assert (Ht : ascii t = true) by (apply (ascii_cons c t H)).
  cbn [re_sub]. destruct skip as [|k]; [|now apply IH].
  destruct (m (c :: t)) as [[n repl]|] eqn:E.
  - unfold ascii. rewrite forallb_app. apply andb_true_iff. split.
    + exact (Hm _ _ _ H E).
    + now apply IH.
  - cbn [ascii forallb] in *. apply andb_true_iff in H. rewrite (proj1 H). now apply IH.
Qed.

Lemma stutter_ascii (s : str) :
  ascii s = true -> @stutter U s = @stutter basic_latin s.
Proof.
  intros H. destruct s as [|c t]; [reflexivity|].
  destruct (ascii_cons c t H) as [(_ & _ & _ & _ & _ & Ha) _].
  unfold stutter, word_char. now rewrite Ha.
Qed.

Lemma spaces_ascii (s : str) :
  ascii s = true -> @spaces U s = @spaces basic_latin s.
Proof.
  intros H. unfold spaces.
  assert (Hg : greedy (@ISSPACE U) s = greedy (@ISSPACE basic_latin) s).
  { induction s as [|c t IH]; [reflexivity|].
    destruct (ascii_cons c t H) as [(_ & _ & _ & _ & Hc & _) Ht].
    cbn [greedy]. now rewrite Hc, (IH Ht). }
  now rewrite Hg.
Qed.

Lemma stutter_keeps_ascii (V : UnicodeDB) (s : str) (n : nat) (repl : str) :
  ascii s = true -> @stutter V s = Some (n, repl) -> ascii repl = true.
Proof.
  intros H. destruct s as [|c t]; [discriminate|]. unfold stutter.
  destruct (@word_char V c); [|discriminate].
  destruct (2 <=? greedy (N.eqb c) t)%nat; [|discriminate].
  intros [= _ <-]. cbn [ascii forallb] in *. apply andb_true_iff in H.
  now rewrite (proj1 H).
Qed.

Lemma spaces_keeps_ascii (V : UnicodeDB) (s : str) (n : nat) (repl : str) :
  ascii s = true -> @spaces V s = Some (n, repl) -> ascii repl = true.
Proof.
  intros _. unfold spaces. destruct (2 <=? greedy (@ISSPACE V) s)%nat; [|discriminate].
  now intros [= _ <-].
Qed.

(** On a text of the Basic Latin block, [clean_repetitions] is what the
    Basic Latin tables make it. *)
Lemma clean_repetitions_ascii (text : str) :
  ascii text = true ->
  @clean_repetitions U text = @clean_repetitions basic_latin text.
Proof.
  intros H. unfold clean_repetitions.
  rewrite (re_sub_agree _ _ stutter_ascii text 0 H).
  pose proof (re_sub_keeps_ascii _ (stutter_keeps_ascii basic_latin) text 0 H) as H1.
  rewrite (re_sub_agree _ _ spaces_ascii _ 0 H1).
  pose proof (re_sub_keeps_ascii _ (spaces_keeps_ascii basic_latin) _ 0 H1) as H2.
  now rewrite (split_ascii _ H2).
Qed.

End BasicLatin.

(** ** Caseless scripts *)

(** C7. With the language code of the caseless script, [is_all_caps] and
    [is_title_case] answer false and [uppercase_ratio] answers zero,
    whatever the text. *)
Theorem caseless_script_neutral :
  forall (U : UnicodeDB) (text : str),
    is_all_caps text "ja" = false
    /\ is_title_case text "ja" = false
    /\ uppercase_ratio text "ja" = 0%float.
Proof.
  intros U text. repeat split.
Qed.

(** ** Bullets *)

Lemma existsb_eqb_In (c : char) (l : list char) :
  existsb (N.eqb c) l = true <-> In c l.
Proof.
  rewrite existsb_exists. split.
  - intros [x [Hin Heq]]. apply N.eqb_eq in Heq. now subst.
  - intros Hin. exists c. split; [assumption | apply N.eqb_refl].
Qed.

(** C10. [starts_with_bullet] never raises: on the empty string it
    returns that string, which is falsy, without indexing it; on any
    other string it returns the boolean telling whether the first
    character is one of the bullets. *)
Theorem starts_with_bullet_total :
  starts_with_bullet [] = Ok (VStr [])
  /\ truth (VStr []) = false
  /\ (forall (c : char) (t : str),
        exists b : bool,
          starts_with_bullet (c :: t) = Ok (VBool b)
          /\ (b = true <-> In c bullets))
  /\ (forall text : str, exists v : value, starts_with_bullet text = Ok v).
Proof.
  repeat split.
  - intros c t. exists (existsb (N.eqb c) bullets). split.
    + reflexivity.
    + apply existsb_eqb_In.
  - intros [|c t]; eexists; reflexivity.
Qed.

(** ** The font-to-level classifier *)

(** C4. The level of a span is the first entry of the table
    H1: 20.04, H2: 15.96, H3: 12.0, tried in this order, whose size is
    within 0.1 of the span's; there is no level when no entry is. A span
    of size 20.09 is H1, one of size 20.2 has no level. *)
Theorem heading_level_first_match :
  (forall (blocks : list Block) (b : Block),
     heading_level b (compute_font_stats blocks) = level_of_size (size b))
  /\ heading_level (Fixtures.span (u "Heading") 20.09 1 0) (compute_font_stats []) = Some H1
  /\ heading_level (Fixtures.span (u "Heading") 20.2 1 0) (compute_font_stats []) = None.
Proof.
  split; [| split; reflexivity].
  intros blocks b. unfold heading_level, level_of_size, within, font_table.
  cbn [compute_font_stats find snd fst].
  destruct (PrimFloat.ltb (PrimFloat.abs (size b - 20.04)) 0.1); [reflexivity|].
  destruct (PrimFloat.ltb (PrimFloat.abs (size b - 15.96)) 0.1); [reflexivity|].
  destruct (PrimFloat.ltb (PrimFloat.abs (size b - 12.0)) 0.1); reflexivity.
Qed.

(** ** Title detection and the language code *)

(** C9. The title does not depend on the language code. *)
Theorem detect_title_ignores_language :
  forall (U : UnicodeDB) (PS : PySorted) (blocks : list Block) (l1 l2 : string),
    detect_title blocks l1 = detect_title blocks l2.
Proof.
  intros U PS blocks l1 l2. reflexivity.
Qed.

(** ** Language resolution *)

Lemma get_nlp_unfold (SP : Spacy) (code : string) :
  get_nlp code =
  try_except (spacy_load (dict_get LANG_MODELS code "en_core_web_sm"%string))
    (fun _ => spacy_load "en_core_web_sm"%string).
Proof. reflexivity. Qed.

Lemma dict_get_unsupported (code : string) :
  ~ In code ["en"; "es"; "ja"]%string ->
  dict_get LANG_MODELS code "en_core_web_sm"%string = "en_core_web_sm"%string.
Proof.
  intros H. cbn.
  destruct (String.eqb_spec code "en"); [exfalso; apply H; subst; cbn; auto|].
  destruct (String.eqb_spec code "es"); [exfalso; apply H; subst; cbn; auto|].
  destruct (String.eqb_spec code "ja"); [exfalso; apply H; subst; cbn; auto|].
  reflexivity.
Qed.

(** ** The cache of [get_nlp] *)

Section Cache.
Context {SP : Spacy}.

Lemma cache_lookup_In (cache : list (string * Language)) (k : string) (v : Language) :
  cache_lookup cache k = Some v -> In (k, v) cache.
Proof.
  induction cache as [|[k' v'] cache IH]; [discriminate|].
  cbn [cache_lookup]. destruct (String.eqb_spec k k') as [->|Hne].
  - intros [= ->]. now left.
  - intros H. right. now apply IH.
Qed.

Lemma coherent_firstn (n : nat) (cache : list (string * Language)) :
  coherent cache -> coherent (firstn n cache).
Proof.
  unfold coherent. intros H. rewrite <- (firstn_skipn n cache) in H.
  apply Forall_app in H. exact (proj1 H).
Qed.

Lemma cached_get_nlp_result (cache : list (string * Language)) (code : string) :
  coherent cache -> fst (cached_get_nlp cache code) = get_nlp code.
Proof.
  intros Hc. unfold cached_get_nlp, lru_cache.
  destruct (cache_lookup cache code) as [v|] eqn:Hl.
  - apply cache_lookup_In in Hl. unfold coherent in Hc. rewrite Forall_forall in Hc.
    symmetry. exact (Hc _ Hl).
  - destruct (get_nlp code); reflexivity.
Qed.

Lemma cached_get_nlp_coherent (cache : list (string * Language)) (code : string) :
  coherent cache -> coherent (snd (cached_get_nlp cache code)).
Proof.
  intros Hc. unfold cached_get_nlp, lru_cache.
  destruct (cache_lookup cache code) as [v|] eqn:Hl.
  - cbn [snd]. constructor.
    + apply cache_lookup_In in Hl. unfold coherent in Hc. rewrite Forall_forall in Hc.
      exact (Hc _ Hl).
    + unfold cache_remove. unfold coherent in *. rewrite Forall_forall in *.
      intros kv Hin. apply filter_In in Hin. now apply Hc.
  - destruct (get_nlp code) as [v|e] eqn:Hg; cbn [snd]; [|assumption].
    apply coherent_firstn. constructor; assumption.
Qed.

Lemma cached_get_nlp_bounded (cache : list (string * Language)) (code : string) :
  List.length cache <= 3 -> List.length (snd (cached_get_nlp cache code)) <= 3.
Proof.
  intros Hb. unfold cached_get_nlp, lru_cache.
  destruct (cache_lookup cache code) as [v|] eqn:Hl.
  - cbn [snd List.length]. unfold cache_remove.
    assert (Hin : In (code, v) cache) by now apply cache_lookup_In.
    assert (List.length (filter (fun kv => negb (String.eqb code (fst kv))) cache)
            < List.length cache); [|lia].
    clear Hl Hb. induction cache as [|[k' v'] cache IH]; [contradiction|].
    cbn [filter fst]. destruct (String.eqb_spec code k') as [->|Hne]; cbn [negb List.length].
    + pose proof (filter_length_le (fun kv => negb (String.eqb k' (fst kv))) cache). lia.
    + destruct Hin as [[= <- <-]|Hin]; [contradiction|]. specialize (IH Hin). lia.
  - destruct (get_nlp code); cbn [snd]; [|assumption].
    rewrite length_firstn. lia.
Qed.

(** Calls through the cache, started with an empty cache, return what
    the body of [get_nlp] returns. *)
Lemma resolve_all_transparent (codes : list string) (cache : list (string * Language)) :
  coherent cache -> resolve_all cache codes = map get_nlp codes.
Proof.
  revert cache. induction codes as [|code codes IH]; intros cache Hc; [reflexivity|].
  cbn [resolve_all map].
  pose proof (cached_get_nlp_result cache code Hc) as Hr.
  pose proof (cached_get_nlp_coherent cache code Hc) as Hc'.
  destruct (cached_get_nlp cache code) as [r cache']. cbn [fst snd] in *.
  now rewrite Hr, (IH cache' Hc').
Qed.

End Cache.

(** C8, as the code has it. When the English model loads, [get_nlp]
    returns a model for every language code: the English one for a code
    outside en, es, ja, and the English one when loading the model of
    the code raises; so does every call made through the cache, started
    empty. [detect_language] never raises and answers en when the
    language identifier raises. *)
Theorem language_resolution_falls_back :
  forall (SP : Spacy) (LD : LangDetect) (english : Language),
    spacy_load "en_core_web_sm"%string = Ok english ->
    (forall code, exists nlp, get_nlp code = Ok nlp)
    /\ (forall code, ~ In code ["en"; "es"; "ja"]%string -> get_nlp code = Ok english)
    /\ (forall code e,
          spacy_load (dict_get LANG_MODELS code "en_core_web_sm"%string) = Raise e ->
          get_nlp code = Ok english)
    /\ (forall codes,
          Forall (fun r => exists nlp, r = Ok nlp) (resolve_all [] codes))
    /\ (forall blocks, exists lang, detect_language blocks = Ok lang)
    /\ (forall blocks e,
          detect (join [32%N] (firstn 20 (map text (filter (fun b => truthy (text b)) blocks))))
          = Raise e ->
          detect_language blocks = Ok "en"%string).
Proof.
  intros SP LD english Hen.
  assert (Htotal : forall code, exists nlp, get_nlp code = Ok nlp).
  { intros code. rewrite get_nlp_unfold.
    destruct (spacy_load (dict_get LANG_MODELS code "en_core_web_sm"%string)) as [m|e].
    - exists m. reflexivity.
    - exists english. exact Hen. }
  split; [exact Htotal|]. repeat split.
  - intros code Hout. rewrite get_nlp_unfold, (dict_get_unsupported code Hout), Hen.
    reflexivity.
  - intros code e He. rewrite get_nlp_unfold, He. exact Hen.
  - intros codes. rewrite (resolve_all_transparent codes []); [|constructor].
    apply Forall_forall. intros r Hr. apply in_map_iff in Hr.
    destruct Hr as (code & <- & _). apply Htotal.
  - intros blocks. unfold detect_language.
    destruct (detect _) as [l|e]; eexists; reflexivity.
  - intros blocks e He. unfold detect_language. rewrite He. reflexivity.
Qed.

Example get_nlp_spanish_missing :
  @get_nlp Fixtures.no_spanish "es" = Ok "en_core_web_sm"%string
  /\ @resolve_all Fixtures.no_spanish [] ["es"; "ja"; "fr"; "es"]%string
     = [ Ok "en_core_web_sm"; Ok "ja_core_news_sm";
         Ok "en_core_web_sm"; Ok "en_core_web_sm" ]%string.
Proof. split; reflexivity. Qed.

Lemma language_resolution_falls_back_witness :
  @spacy_load (@Fixtures.whitespace_pipeline basic_latin) "en_core_web_sm" = Ok tt
  /\ @get_nlp (@Fixtures.whitespace_pipeline basic_latin) "fr" = Ok tt.
Proof.
  split; [reflexivity|].
  apply (language_resolution_falls_back
           (@Fixtures.whitespace_pipeline basic_latin) Fixtures.failing_detector tt
           eq_refl).
  cbn. intros [H|[H|[H|[]]]]; discriminate H.
Defined.

(** The claim C8 as stated fails where no model can be loaded: the
    handler of [get_nlp] loads the English model again, and that raises. *)
Lemma get_nlp_raises_without_models :
  @get_nlp Fixtures.no_models "fr" = Raise OSError
  /\ @get_nlp Fixtures.no_models "en" = Raise OSError.
Proof. split; reflexivity. Qed.

(** ** Title case *)

Lemma cased_scan_all_lower (U : UnicodeDB) (L : UnicodeLaws U) (s : str) (cased : bool) :
  forallb ISLOWER s = true ->
  cased_scan (fun c => ISUPPER c || ISTITLE c) ISLOWER cased s = cased || truthy s.
Proof.
  revert cased. induction s as [|c t IH]; intros cased H.
  - cbn. now rewrite orb_false_r.
  - cbn in H. apply andb_true_iff in H. destruct H as [Hc Ht].
    cbn. rewrite (lower_not_upper c Hc), (lower_not_title c Hc). cbn.
    rewrite (IH _ Ht), Hc. now rewrite !orb_true_r.
Qed.

Lemma islower_all_lower (U : UnicodeDB) (L : UnicodeLaws U) (s : str) :
  s <> [] -> forallb ISLOWER s = true -> islower s = true.
Proof.
  intros Hne H. destruct s as [|c [|d t]].
  - contradiction.
  - cbn in *. now rewrite andb_true_r in H.
  - unfold islower. now rewrite (cased_scan_all_lower U L).
Qed.

(** What [is_title_case] accepts. A text with at least one alphabetic
    token, whose alphabetic tokens all have two characters or more, the
    first uppercase and the others lowercase, is in title case for the
    language code en; a text without alphabetic token is not; and
    "I AM HERE" is not. *)
Lemma is_title_case_sufficient :
  (forall (U : UnicodeDB), UnicodeLaws U -> forall text : str,
     filter isalpha (split text) <> [] ->
     (forall w, In w (filter isalpha (split text)) ->
        exists c rest,
          w = c :: rest /\ rest <> []
          /\ ISUPPER c = true /\ forallb ISLOWER rest = true) ->
     is_title_case text "en" = true)
  /\ (forall (U : UnicodeDB) (text : str),
        filter isalpha (split text) = [] -> is_title_case text "en" = false)
  /\ (forall (U : UnicodeDB), UnicodeLaws U ->
        is_title_case (u "I AM HERE") "en" = false).
Proof.
  split; [| split; [| intros U L; now rewrite is_title_case_ascii]].
  - intros U L text Hne Hall. unfold is_title_case. cbn [String.eqb Ascii.eqb Bool.eqb].
    destruct (filter isalpha (split text)) as [|w ws] eqn:Hw; [contradiction|].
    cbn [negb]. apply forallb_forall. intros v Hv.
    destruct (Hall v Hv) as (c & rest & -> & Hrest & Hc & Hl).
    cbn. rewrite Hc. now apply islower_all_lower.
  - intros U text Hnil. unfold is_title_case. cbn [String.eqb Ascii.eqb Bool.eqb].
    now rewrite Hnil.
Qed.

Lemma is_title_case_sufficient_witness :
  @is_title_case basic_latin (u "Am Here") "en" = true.
Proof.
  apply (proj1 is_title_case_sufficient basic_latin basic_latin_laws (u "Am Here")).
  - vm_compute. discriminate.
  - intros w Hw. vm_compute in Hw. destruct Hw as [<-|[<-|[]]].
    + exists 65%N, [109%N]. repeat split. discriminate.
    + exists 72%N, [101%N; 114%N; 101%N]. repeat split. discriminate.
Defined.

(** C1. On "I Am Here" every alphabetic token has an uppercase first
    character and only lowercase characters after it, so the text is in
    strict title case; yet [is_title_case] answers no: the token "I" is
    rejected because the [islower] of its empty remainder is false. The
    test [w[0].isupper() and w[1:].islower()] misses the words of one
    letter that the docstring's strict title case includes. *)
Theorem is_title_case_rejects_single_letter :
  @alphabetic_tokens basic_latin (u "I Am Here") = [u "I"; u "Am"; u "Here"]
  /\ forallb (@title_token basic_latin) (@alphabetic_tokens basic_latin (u "I Am Here"))
     = true
  /\ @strict_title_case basic_latin (u "I Am Here") "en" = true
  /\ @title_word basic_latin (u "I") = false
  /\ @is_title_case basic_latin (u "I Am Here") "en" = false.
Proof. repeat split. Qed.

(** The same under every table that has the Basic Latin block right. *)
Lemma is_title_case_single_letter_any_table (U : UnicodeDB) (L : UnicodeLaws U) :
  is_title_case (u "I Am Here") "en" = false
  /\ is_title_case (u "A Study") "en" = false.
Proof.
  split; now rewrite is_title_case_ascii.
Qed.

(** ** Heading candidates and the outline *)

Section Outline.
Context {U : UnicodeDB} {SP : Spacy}.
Variables (lang_code : string) (nlp : Language).
Hypothesis Hnlp : get_nlp lang_code = Ok nlp.

Lemma is_full_sentence_returns (text : str) :
  exists full, is_full_sentence text lang_code = Ok full.
Proof.
  unfold is_full_sentence. rewrite Hnlp. cbn [bind]. eexists. reflexivity.
Qed.

(** The verdict of [is_heading_candidate] is the conjunction of the
    first five conditions. *)
Lemma is_heading_candidate_spec (b : Block) :
  exists cand,
    is_heading_candidate b lang_code = Ok cand
    /\ (cand = true <->
        text b <> []
        /\ (forall c, hd_error (text b) = Some c -> ~ In c bullets)
        /\ is_short (text b) 14 80 lang_code = true
        /\ is_full_sentence (text b) lang_code = Ok false
        /\ (is_all_caps (text b) lang_code = true
            \/ is_title_case (text b) lang_code = true
            \/ PrimFloat.ltb 0.5 (uppercase_ratio (text b) lang_code) = true)).
Proof.
  unfold is_heading_candidate.
  destruct (text b) as [|c t] eqn:Ht.
  - exists false. split; [reflexivity|]. split; [discriminate|].
    intros (H & _). now contradiction H.
  - cbn [truthy negb starts_with_bullet getitem nth_error bind truth].
    destruct (existsb (N.eqb c) bullets) eqn:Hb.
    + exists false. split; [reflexivity|]. split; [discriminate|].
      intros (_ & H & _). exfalso. apply (H c eq_refl). now apply existsb_eqb_In.
    + assert (Hnb : forall c', hd_error (c :: t) = Some c' -> ~ In c' bullets).
      { intros c' Hc'. cbn in Hc'. injection Hc' as <-. intros Hin.
        apply existsb_eqb_In in Hin. congruence. }
      destruct (is_short (c :: t) 14 80 lang_code) eqn:Hs; cbn [negb bind].
      2:{ exists false. split; [reflexivity|]. split; [discriminate|].
          intros (_ & _ & H & _). discriminate H. }
      destruct (is_full_sentence_returns (c :: t)) as [full Hf]. rewrite Hf. cbn [bind].
      destruct full.
      { exists false. split; [reflexivity|]. split; [discriminate|].
        intros (_ & _ & _ & H & _). discriminate H. }
      destruct (is_all_caps (c :: t) lang_code
                || is_title_case (c :: t) lang_code
                || PrimFloat.ltb 0.5 (uppercase_ratio (c :: t) lang_code)) eqn:Hd.
      * exists true. split; [reflexivity|]. split; [|reflexivity].
        intros _. repeat split; try assumption; try discriminate.
        apply orb_true_iff in Hd. destruct Hd as [Hd|Hd]; [|now right; right].
        apply orb_true_iff in Hd. destruct Hd as [Hd|Hd]; [now left | now right; left].
      * exists false. split; [reflexivity|]. split; [discriminate|].
        intros (_ & _ & _ & _ & H).
        apply orb_false_iff in Hd. destruct Hd as [Hd Hr].
        apply orb_false_iff in Hd. destruct Hd as [Hc Hti].
        destruct H as [H|[H|H]]; congruence.
Qed.

(** What one span contributes to the outline. *)
Lemma outline_step_spec (blocks : list Block) (b : Block) :
  (forall outline,
     outline_step (compute_font_stats blocks) lang_code outline b
     = Ok (outline ++ match emitted blocks lang_code b with Some e => [e] | None => [] end))
  /\ (forall e, emitted blocks lang_code b = Some e <->
        exists lv, Qualifies blocks lang_code b lv /\ e = entry_of b lv).
Proof.
  unfold outline_step, Qualifies, emitted.
  destruct (is_heading_candidate_spec b) as (cand & Hc & Hiff).
  destruct (heading_level b (compute_font_stats blocks)) as [lv|] eqn:Hl.
  - rewrite Hc. cbn [bind]. destruct cand.
    + split; [reflexivity|].
      intros e. split.
      * intros [= <-]. exists lv. split; [|reflexivity].
        destruct (proj1 Hiff eq_refl) as (H1 & H2 & H3 & H4 & H5). tauto.
      * intros (lv' & (_ & _ & _ & _ & _ & [= <-]) & ->). reflexivity.
    + split; [intros outline; now rewrite app_nil_r|].
      intros e. split; [discriminate|].
      intros (lv' & (H1 & H2 & H3 & H4 & H5 & _) & _).
      assert (false = true) by (apply Hiff; tauto). discriminate.
  - split; [intros outline; now rewrite app_nil_r|].
    intros e. split; [discriminate|].
    intros (lv' & (_ & _ & _ & _ & _ & H) & _). discriminate H.
Qed.

Lemma extract_outline_fold (blocks0 : list Block) (emit : Block -> option HeadingEntry)
    (blocks : list Block) (acc : list HeadingEntry) :
  (forall b outline,
     outline_step (compute_font_stats blocks0) lang_code outline b
     = Ok (outline ++ match emit b with Some e => [e] | None => [] end)) ->
  fold_left (fun acc block => bind acc (fun outline =>
               outline_step (compute_font_stats blocks0) lang_code outline block))
    blocks (Ok acc)
  = Ok (acc ++ flat_map (fun b => match emit b with Some e => [e] | None => [] end) blocks).
Proof.
  intros Hstep. revert acc. induction blocks as [|b bs IH]; intros acc.
  - cbn. now rewrite app_nil_r.
  - cbn [fold_left bind flat_map]. rewrite Hstep, IH, <- app_assoc. reflexivity.
Qed.

End Outline.

(** The loop of [extract_outline] in terms of the tests of the code.
    When the model of the language loads, the outline is made, in the
    order of the spans, of one entry per span that passes them:
    non-empty text, no bullet in front, [is_short] for 14 words and 80
    characters, not [is_full_sentence], one of [is_all_caps],
    [is_title_case] and an [uppercase_ratio] above 0.5, and a level
    from the font table. The entry holds that level, the text and the
    page minus 1; no other span contributes. *)
Lemma outline_emits_qualifying_spans :
  forall (U : UnicodeDB) (SP : Spacy) (blocks : list Block)
         (lang_code : string) (nlp : Language),
    get_nlp lang_code = Ok nlp ->
    exists emit : Block -> option HeadingEntry,
      extract_outline blocks lang_code
      = Ok (flat_map (fun b => match emit b with Some e => [e] | None => [] end) blocks)
      /\ forall b e,
           emit b = Some e <->
           exists lv, Qualifies blocks lang_code b lv /\ e = entry_of b lv.
Proof.
  intros U SP blocks lang_code nlp Hnlp.
  exists (emitted blocks lang_code). split.
  - unfold extract_outline.
    apply (extract_outline_fold lang_code blocks (emitted blocks lang_code) blocks []).
    intros b outline. apply (outline_step_spec lang_code nlp Hnlp).
  - intros b e. apply (outline_step_spec lang_code nlp Hnlp).
Qed.

(** The scenario of the specification: a title line, a heading and a
    sentence of body text. *)
Lemma outline_emits_qualifying_spans_witness :
  exists emit : Block -> option HeadingEntry,
    @extract_outline basic_latin (@Fixtures.whitespace_pipeline basic_latin)
      [ Fixtures.span (u "TITLE OF PAPER") 24 1 10;
        Fixtures.span (u "Introduction") 20.04 1 50;
        Fixtures.span (u "This describes the background.") 12 1 80 ] "en"
    = Ok (flat_map (fun b => match emit b with Some e => [e] | None => [] end)
            [ Fixtures.span (u "TITLE OF PAPER") 24 1 10;
              Fixtures.span (u "Introduction") 20.04 1 50;
              Fixtures.span (u "This describes the background.") 12 1 80 ])
    /\ forall b e,
         emit b = Some e <->
         exists lv,
           @Qualifies basic_latin (@Fixtures.whitespace_pipeline basic_latin)
             [ Fixtures.span (u "TITLE OF PAPER") 24 1 10;
               Fixtures.span (u "Introduction") 20.04 1 50;
               Fixtures.span (u "This describes the background.") 12 1 80 ] "en" b lv
           /\ e = entry_of b lv.
Proof.
  apply (outline_emits_qualifying_spans basic_latin
           (@Fixtures.whitespace_pipeline basic_latin) _ "en" tt).
  reflexivity.
Defined.

Example outline_of_scenario :
  @extract_outline basic_latin (@Fixtures.whitespace_pipeline basic_latin)
    [ Fixtures.span (u "TITLE OF PAPER") 24 1 10;
      Fixtures.span (u "Introduction") 20.04 1 50;
      Fixtures.span (u "This describes the background.") 12 1 80 ] "en"
  = Ok [ {| level := H1; h_text := u "Introduction"; h_page := 0 |} ].
Proof. vm_compute. reflexivity. Qed.

(** C2. The span "I Am Here" of size 20.04 on page 1 meets the six
    conditions of a heading: its trimmed text is not empty, it starts
    with no bullet glyph, it is short for 14 words and 80 characters,
    it is not a full sentence, it is in strict title case, and its size
    has the level H1. The claim puts the entry H1, "I Am Here", page 0
    into the outline; [extract_outline] returns the empty outline,
    because [is_title_case] rejects the word of one letter and the
    span has no other case signal. *)
Theorem outline_omits_strict_title_case :
  @qualifies basic_latin (@Fixtures.whitespace_pipeline basic_latin) tt "en"
    Fixtures.one_letter_heading = true
  /\ @strict_title_case basic_latin (text Fixtures.one_letter_heading) "en" = true
  /\ level_of_size (size Fixtures.one_letter_heading) = Some H1
  /\ @outline_of basic_latin (@Fixtures.whitespace_pipeline basic_latin) tt "en"
       [Fixtures.one_letter_heading]
     = [ {| level := H1; h_text := u "I Am Here"; h_page := 0 |} ]
  /\ @is_title_case basic_latin (text Fixtures.one_letter_heading) "en" = false
  /\ @is_heading_candidate basic_latin (@Fixtures.whitespace_pipeline basic_latin)
       Fixtures.one_letter_heading "en" = Ok false
  /\ @extract_outline basic_latin (@Fixtures.whitespace_pipeline basic_latin)
       [Fixtures.one_letter_heading] "en" = Ok [].
Proof. repeat split. Qed.

(** ** The repetition cleaner *)

Section Regex.
Context {U : UnicodeDB}.

Lemma re_sub_skip (m : matcher) (l r : str) :
  re_sub m (List.length l) (l ++ r) = re_sub m 0 r.
Proof.
  induction l as [|c l IH]; [|exact IH].
  destruct r; reflexivity.
Qed.

(** The first maximal run of a character. *)
Lemma greedy_split (p : char -> bool) (s : str) :
  exists r, s = firstn (greedy p s) s ++ r
            /\ forallb p (firstn (greedy p s) s) = true
            /\ List.length (firstn (greedy p s) s) = greedy p s
            /\ greedy p r = 0.
Proof.
  induction s as [|c t IH].
  - exists []. repeat split.
  - cbn [greedy]. destruct (p c) eqn:Hc.
    + destruct IH as (r & Hs & Hall & Hlen & Hr). exists r. cbn [firstn app forallb List.length].
      rewrite Hc, Hall, Hlen. repeat split; try assumption. now rewrite <- Hs.
    + exists (c :: t). cbn. rewrite Hc. repeat split.
Qed.

Lemma forallb_eqb_repeat (c : char) (l : str) :
  forallb (N.eqb c) l = true -> l = repeat c (List.length l).
Proof.
  induction l as [|d l IH]; [reflexivity|].
  cbn. intros H. apply andb_true_iff in H. destruct H as [Hd Hl].
  apply N.eqb_eq in Hd. subst d. now rewrite <- IH.
Qed.

Lemma run_split (c : char) (t : str) :
  exists r, t = repeat c (greedy (N.eqb c) t) ++ r /\ greedy (N.eqb c) r = 0.
Proof.
  destruct (greedy_split (N.eqb c) t) as (r & Hs & Hall & Hlen & Hr).
  exists r. split; [|assumption].
  apply forallb_eqb_repeat in Hall. rewrite Hlen in Hall. now rewrite <- Hall.
Qed.

Lemma greedy_repeat (c : char) (k : nat) (r : str) :
  greedy (N.eqb c) r = 0 -> greedy (N.eqb c) (repeat c k ++ r) = k.
Proof.
  intros Hr. induction k as [|k IH]; [exact Hr|].
  cbn. now rewrite N.eqb_refl, IH.
Qed.

Lemma runs_head (d : char) (t : str) :
  exists n rs, runs (d :: t) = (d, S n) :: rs.
Proof.
  revert d. induction t as [|e t IH]; intros d.
  - exists 0, []. reflexivity.
  - destruct (IH e) as (n & rs & H). cbn [runs] in *. rewrite H.
    destruct (N.eqb_spec d e) as [->|Hne].
    + exists (S n), rs. reflexivity.
    + exists 0, ((e, S n) :: rs). reflexivity.
Qed.

Lemma runs_first (c : char) (k : nat) (r : str) :
  greedy (N.eqb c) r = 0 ->
  runs (repeat c (S k) ++ r) = (c, S k) :: runs r.
Proof.
  intros Hr. induction k as [|k IH].
  - cbn [repeat app runs]. destruct r as [|d r]; [reflexivity|].
    destruct (runs_head d r) as (n & rs & H). rewrite H.
    cbn in Hr. destruct (N.eqb c d); [discriminate|reflexivity].
  - change (repeat c (S (S k)) ++ r) with (c :: (repeat c (S k) ++ r)).
    cbn [runs]. rewrite IH, N.eqb_refl. reflexivity.
Qed.

Lemma re_sub_cons (m : matcher) (c : char) (t : str) :
  re_sub m 0 (c :: t)
  = match m (c :: t) with
    | Some (n, repl) => repl ++ re_sub m (Nat.pred n) t
    | None => c :: re_sub m 0 t
    end.
Proof. reflexivity. Qed.

Lemma stutter_run (c : char) (k : nat) (r : str) :
  greedy (N.eqb c) r = 0 ->
  stutter (c :: repeat c k ++ r)
  = if word_char c && (2 <=? k)%nat then Some (S k, [c]) else None.
Proof.
  intros Hr. unfold stutter. rewrite (greedy_repeat c k r Hr).
  destruct (word_char c); reflexivity.
Qed.

(** A run that the pattern does not match is copied. *)
Lemma re_sub_stutter_copy (c : char) (k : nat) (r : str) :
  greedy (N.eqb c) r = 0 ->
  word_char c && (3 <=? k)%nat = false ->
  re_sub stutter 0 (repeat c k ++ r) = repeat c k ++ re_sub stutter 0 r.
Proof.
  intros Hr. induction k as [|k IH]; intros Hk; [reflexivity|].
  cbn [repeat app]. rewrite re_sub_cons, (stutter_run c k r Hr).
  assert (Hno : word_char c && (2 <=? k)%nat = false).
  { destruct (word_char c); [|reflexivity]. cbn in *.
    destruct k as [|[|k]]; [reflexivity|reflexivity|discriminate]. }
  rewrite Hno. f_equal. apply IH.
  destruct (word_char c); [|reflexivity]. cbn in *.
  destruct k as [|[|[|k]]]; try reflexivity; discriminate.
Qed.

Lemma re_sub_stutter_run (c : char) (k : nat) (r : str) :
  greedy (N.eqb c) r = 0 ->
  re_sub stutter 0 (repeat c (S k) ++ r)
  = (if word_char c && (3 <=? S k)%nat then [c] else repeat c (S k))
    ++ re_sub stutter 0 r.
Proof.
  intros Hr. destruct (word_char c && (3 <=? S k)%nat) eqn:Hm.
  - cbn [repeat app]. rewrite re_sub_cons, (stutter_run c k r Hr).
    change (3 <=? S k)%nat with (2 <=? k)%nat in Hm. rewrite Hm.
    cbn [Nat.pred app]. f_equal.
    rewrite <- (repeat_length c k) at 1. apply re_sub_skip.
  - now apply re_sub_stutter_copy.
Qed.

Lemma re_sub_stutter_runs (s : str) :
  re_sub stutter 0 s = collapse_runs word_char s.
Proof.
  remember (List.length s) as n eqn:Hn.
  revert s Hn. induction n as [n IH] using (well_founded_induction Wf_nat.lt_wf).
  intros [|c t] Hn; [reflexivity|].
  destruct (run_split c t) as (r & Ht & Hr).
  set (k := greedy (N.eqb c) t) in *.
  assert (Hs : c :: t = repeat c (S k) ++ r) by (cbn; now rewrite <- Ht).
  rewrite Hs, (re_sub_stutter_run c k r Hr).
  unfold collapse_runs. rewrite (runs_first c k r Hr). cbn [flat_map fst snd].
  f_equal. apply (IH (List.length r)); [|reflexivity].
  subst n. rewrite Hs, length_app, repeat_length. lia.
Qed.


(** *** White-space runs *)

Lemma segments_head (d : char) (t : str) :
  exists seg rest, segments (d :: t) = (ISSPACE d, d :: seg) :: rest.
Proof.
  revert d. induction t as [|e t IH]; intros d.
  - exists [], []. reflexivity.
  - destruct (IH e) as (seg & rest & H). cbn [segments] in *. rewrite H.
    destruct (Bool.eqb (ISSPACE d) (ISSPACE e)) eqn:E.
    + apply eqb_prop in E. rewrite <- E. eexists _, _. reflexivity.
    + eexists _, _. reflexivity.
Qed.

Lemma segments_space_block (c : char) (blk r : str) :
  forallb ISSPACE (c :: blk) = true ->
  greedy ISSPACE r = 0 ->
  segments ((c :: blk) ++ r) = (true, c :: blk) :: segments r.
Proof.
  revert c. induction blk as [|c' blk IH]; intros c Hall Hr.
  - cbn in Hall. rewrite andb_true_r in Hall.
    cbn [app segments]. destruct r as [|d r]; [now rewrite Hall|].
    destruct (segments_head d r) as (seg & rest & H). rewrite H.
    cbn in Hr. destruct (ISSPACE d); [discriminate|]. rewrite Hall. reflexivity.
  - change ((c :: c' :: blk) ++ r) with (c :: ((c' :: blk) ++ r)).
    cbn [segments]. cbn [forallb] in Hall. apply andb_true_iff in Hall.
    destruct Hall as [Hc Hall]. rewrite (IH c' Hall Hr), Hc. reflexivity.
Qed.

Lemma squeeze_cons_other (c : char) (t : str) :
  ISSPACE c = false -> squeeze_spaces (c :: t) = c :: squeeze_spaces t.
Proof.
  intros Hc. unfold squeeze_spaces. destruct t as [|d t].
  - cbn. now rewrite Hc.
  - destruct (segments_head d t) as (seg & rest & H).
    cbn [segments] in *. rewrite H, Hc.
    destruct (ISSPACE d); reflexivity.
Qed.

Lemma re_sub_spaces_runs (s : str) :
  re_sub spaces 0 s = squeeze_spaces s.
Proof.
  remember (List.length s) as n eqn:Hn.
  revert s Hn. induction n as [n IH] using (well_founded_induction Wf_nat.lt_wf).
  intros [|c t] Hn; [reflexivity|].
  destruct (ISSPACE c) eqn:Hc.
  - destruct (greedy_split ISSPACE (c :: t)) as (r & Hs & Hall & Hlen & Hr).
    rewrite re_sub_cons. unfold spaces.
    cbn [greedy] in *. rewrite Hc in *. cbn [firstn] in *.
    set (blk := firstn (greedy ISSPACE t) t) in *.
    cbn [List.length] in Hlen. injection Hlen as Hlen.
    injection Hs as Hs.
    assert (Hrec : re_sub spaces 0 r = squeeze_spaces r).
    { apply (IH (List.length r)); [|reflexivity].
      subst n. cbn [List.length]. rewrite Hs, length_app. lia. }
    assert (Hsq : squeeze_spaces (c :: t)
                  = (if (2 <=? S (List.length blk))%nat then [32%N] else c :: blk)
                    ++ squeeze_spaces r).
    { unfold squeeze_spaces. rewrite Hs at 1.
      change (c :: blk ++ r) with ((c :: blk) ++ r).
      rewrite (segments_space_block c blk r Hall Hr). reflexivity. }
    rewrite Hsq, <- Hlen.
    destruct (2 <=? S (List.length blk))%nat eqn:Hk.
    + cbn [Nat.pred app]. f_equal. rewrite <- Hrec, Hs at 1. apply re_sub_skip.
    + destruct blk as [|b blk]; [|discriminate Hk].
      cbn [app] in *. f_equal. now rewrite Hs.
  - rewrite re_sub_cons. unfold spaces. cbn [greedy]. rewrite Hc. cbn [Nat.leb].
    rewrite (squeeze_cons_other c t Hc). f_equal.
    apply (IH (List.length t)); [|reflexivity]. subst n. cbn. lia.
Qed.

(** *** The loop over the words *)

Lemma filter_filter {A : Type} (f g : A -> bool) (l : list A) :
  filter f (filter g l) = filter (fun x => g x && f x) l.
Proof.
  induction l as [|x l IH]; [reflexivity|].
  cbn. destruct (g x); cbn; [destruct (f x)|]; now rewrite IH.
Qed.

Lemma dedup_loop (words seen result : list str) :
  snd (fold_left dedup_step words (seen, result))
  = result ++ filter (fun v => if in_dec str_eq_dec v seen then false else true)
                (first_occurrences words).
Proof.
  revert seen result. induction words as [|w ws IH]; intros seen result.
  - cbn. now rewrite app_nil_r.
  - cbn [fold_left dedup_step first_occurrences filter].
    destruct (in_dec str_eq_dec w seen) as [Hin|Hout].
    + rewrite IH. f_equal. rewrite filter_filter. apply filter_ext_in.
      intros v _. destruct (str_eq_dec v w) as [->|Hne]; cbn [andb]; [|reflexivity].
      destruct (in_dec str_eq_dec w seen); [reflexivity|contradiction].
    + rewrite IH, <- app_assoc. cbn [app]. do 2 f_equal.
      rewrite filter_filter. apply filter_ext.
      intros v. destruct (in_dec str_eq_dec v (w :: seen)) as [Hv|Hv].
      * destruct (str_eq_dec v w) as [->|Hne]; [reflexivity|]. cbn [andb].
        destruct (in_dec str_eq_dec v seen) as [|Hn]; [reflexivity|].
        destruct Hv as [->|Hv]; contradiction.
      * destruct (str_eq_dec v w) as [->|Hne]; [exfalso; apply Hv; now left|].
        destruct (in_dec str_eq_dec v seen) as [Hs|]; [exfalso; apply Hv; now right|].
        reflexivity.
Qed.

(** The cleaner, with the loop over the words replaced by what it
    computes. *)
Lemma clean_repetitions_loop (s : str) :
  clean_repetitions s
  = join [32%N] (first_occurrences (split (re_sub spaces 0 (re_sub stutter 0 s)))).
Proof.
  unfold clean_repetitions.
  pose proof (dedup_loop (split (re_sub spaces 0 (re_sub stutter 0 s))) [] []) as H.
  destruct (fold_left dedup_step _ _) as [seen result]. cbn [snd app] in H.
  rewrite H. f_equal. clear H.
  induction (first_occurrences _) as [|x l IH]; [reflexivity|].
  cbn [filter]. destruct (in_dec str_eq_dec x []) as [[]|_]. now rewrite IH.
Qed.

(** *** Tokens *)

Lemma split_cons_space (c : char) (t : str) :
  ISSPACE c = true -> split (c :: t) = split t.
Proof. intros H. cbn. now rewrite H. Qed.

Lemma split_cons_other (c : char) (t : str) :
  ISSPACE c = false ->
  split (c :: t)
  = if starts_other t
    then match split t with
         | w :: ws => (c :: w) :: ws
         | [] => [[c]]
         end
    else [c] :: split t.
Proof.
  intros H. cbn [split]. rewrite H. destruct t as [|d t]; [reflexivity|].
  cbn [starts_other]. unfold other. destruct (ISSPACE d); reflexivity.
Qed.

(** A token followed by nothing or by white space is the first word. *)
Lemma split_token_app (c : char) (w rest : str) :
  forallb other (c :: w) = true ->
  starts_other rest = false ->
  split ((c :: w) ++ rest) = (c :: w) :: split rest.
Proof.
  revert c. induction w as [|c' w IH]; intros c Hw Hrest.
  - cbn in Hw. rewrite andb_true_r in Hw. unfold other in Hw.
    apply negb_true_iff in Hw. cbn [app].
    now rewrite (split_cons_other c rest Hw), Hrest.
  - cbn [forallb] in Hw. apply andb_true_iff in Hw. destruct Hw as [Hc Hw].
    unfold other in Hc. apply negb_true_iff in Hc.
    change ((c :: c' :: w) ++ rest) with (c :: ((c' :: w) ++ rest)).
    rewrite (split_cons_other c _ Hc), (IH c' Hw Hrest).
    cbn [app starts_other]. cbn [forallb] in Hw. apply andb_true_iff in Hw.
    now rewrite (proj1 Hw).
Qed.

Lemma greedy_zero_starts (s : str) :
  greedy other s = 0 -> starts_other s = false.
Proof.
  destruct s as [|d s]; [reflexivity|]. cbn. destruct (other d); [discriminate|reflexivity].
Qed.

(** A text that starts with a character of a word is that word, then
    the rest. *)
Lemma first_token (c : char) (t : str) :
  ISSPACE c = false ->
  exists w rest,
    c :: t = (c :: w) ++ rest
    /\ forallb other (c :: w) = true
    /\ starts_other rest = false
    /\ split (c :: t) = (c :: w) :: split rest.
Proof.
  intros Hc.
  assert (Hoc : other c = true) by (unfold other; now rewrite Hc).
  destruct (greedy_split other (c :: t)) as (rest & Hs & Hall & _ & Hr).
  cbn [greedy] in Hs, Hall. rewrite Hoc in Hs, Hall. cbn [firstn] in Hs, Hall.
  exists (firstn (greedy other t) t), rest.
  apply greedy_zero_starts in Hr.
  repeat split; try assumption.
  rewrite Hs at 1. now apply split_token_app.
Qed.

Lemma split_tokens (s : str) : Forall token (split s).
Proof.
  remember (List.length s) as n eqn:Hn.
  revert s Hn. induction n as [n IH] using (well_founded_induction Wf_nat.lt_wf).
  intros [|c t] Hn; [constructor|].
  destruct (ISSPACE c) eqn:Hc.
  - rewrite (split_cons_space c t Hc). apply (IH (List.length t)); [subst n; cbn; lia | reflexivity].
  - destruct (first_token c t Hc) as (w & rest & Hs & Hw & _ & Hsp).
    rewrite Hsp. constructor.
    + split; [discriminate | assumption].
    + apply (IH (List.length rest)); [|reflexivity].
      subst n. rewrite Hs, length_app. cbn. lia.
Qed.


(** *** Step 2 does not change the words *)

Section Laws.
Context {L : UnicodeLaws U}.

Lemma other_space : other 32%N = false.
Proof. unfold other. now rewrite space_is_space. Qed.

Lemma split_space_block (blk r : str) :
  forallb ISSPACE blk = true -> split (blk ++ r) = split r.
Proof.
  induction blk as [|c blk IH]; [reflexivity|].
  cbn [forallb]. intros H. apply andb_true_iff in H. destruct H as [Hc Hb].
  cbn [app]. rewrite (split_cons_space c _ Hc). now apply IH.
Qed.

Lemma starts_other_re_sub_spaces (t : str) :
  starts_other (re_sub spaces 0 t) = starts_other t.
Proof.
  destruct t as [|d t]; [reflexivity|].
  rewrite re_sub_cons. unfold spaces. cbn [greedy].
  destruct (ISSPACE d) eqn:Hd.
  - destruct (2 <=? S (greedy ISSPACE t))%nat; cbn [app starts_other]; [|reflexivity].
    unfold other. now rewrite space_is_space, Hd.
  - reflexivity.
Qed.

Lemma split_re_sub_spaces (s : str) :
  split (re_sub spaces 0 s) = split s.
Proof.
  remember (List.length s) as n eqn:Hn.
  revert s Hn. induction n as [n IH] using (well_founded_induction Wf_nat.lt_wf).
  intros [|c t] Hn; [reflexivity|].
  destruct (ISSPACE c) eqn:Hc.
  - destruct (greedy_split ISSPACE (c :: t)) as (r & Hs & Hall & Hlen & Hr).
    rewrite re_sub_cons. unfold spaces.
    cbn [greedy] in *. rewrite Hc in *. cbn [firstn] in *.
    set (blk := firstn (greedy ISSPACE t) t) in *.
    cbn [List.length] in Hlen. injection Hlen as Hlen. injection Hs as Hs.
    assert (Hrec : split (re_sub spaces 0 r) = split r).
    { apply (IH (List.length r)); [|reflexivity].
      subst n. cbn [List.length]. rewrite Hs, length_app. lia. }
    assert (Hrhs : split (c :: t) = split r).
    { rewrite Hs. change (c :: blk ++ r) with ((c :: blk) ++ r).
      now apply split_space_block. }
    rewrite Hrhs, <- Hlen.
    destruct (2 <=? S (List.length blk))%nat eqn:Hk.
    + cbn [Nat.pred app]. rewrite (split_cons_space _ _ space_is_space).
      rewrite <- Hrec, Hs at 1. now rewrite re_sub_skip.
    + destruct blk as [|b blk]; [|discriminate Hk].
      cbn [app] in Hs. subst t. now rewrite (split_cons_space c _ Hc).
  - rewrite re_sub_cons. unfold spaces. cbn [greedy]. rewrite Hc. cbn [Nat.leb].
    rewrite !(split_cons_other c _ Hc), starts_other_re_sub_spaces.
    rewrite (IH (List.length t)); [reflexivity | subst n; cbn; lia | reflexivity].
Qed.

(** *** Words joined by one space *)

Lemma starts_other_space (r : str) : starts_other (32%N :: r) = false.
Proof. cbn. apply other_space. Qed.

Lemma split_join (ws : list str) :
  Forall token ws -> split (join [32%N] ws) = ws.
Proof.
  induction ws as [|w ws IH]; intros H; [reflexivity|].
  inversion H as [|? ? [Hne Hw] Hws]; subst.
  destruct w as [|c w]; [contradiction|].
  destruct ws as [|w' ws].
  - cbn [join]. rewrite <- (app_nil_r (c :: w)) at 1.
    now rewrite (split_token_app c w [] Hw eq_refl).
  - change (join [32%N] ((c :: w) :: w' :: ws))
      with ((c :: w) ++ 32%N :: join [32%N] (w' :: ws)).
    rewrite (split_token_app c w _ Hw (starts_other_space _)).
    rewrite (split_cons_space _ _ space_is_space). now rewrite IH.
Qed.

End Laws.

(** *** Texts without a stutter *)

Lemma re_sub_no_stutter (s : str) :
  no_stutter s = true -> re_sub stutter 0 s = s.
Proof.
  induction s as [|c t IH]; [reflexivity|].
  intros H. rewrite re_sub_cons. cbn [no_stutter] in H.
  destruct (stutter (c :: t)); [discriminate|]. now rewrite IH.
Qed.

Lemma greedy_zero_re_sub_stutter (c : char) (r : str) :
  greedy (N.eqb c) r = 0 -> greedy (N.eqb c) (re_sub stutter 0 r) = 0.
Proof.
  destruct r as [|d r]; [reflexivity|].
  rewrite re_sub_cons. cbn [greedy]. destruct (N.eqb c d) eqn:E; [discriminate|]. intros _.
  unfold stutter. destruct (word_char d); [|cbn; now rewrite E].
  destruct (2 <=? greedy (N.eqb d) r)%nat; cbn; now rewrite E.
Qed.

Lemma no_stutter_run (c : char) (j : nat) (r : str) :
  greedy (N.eqb c) r = 0 ->
  word_char c && (3 <=? j)%nat = false ->
  no_stutter r = true ->
  no_stutter (repeat c j ++ r) = true.
Proof.
  intros Hr Hj Hn. induction j as [|j IH]; [exact Hn|].
  cbn [repeat app no_stutter]. rewrite (stutter_run c j r Hr).
  change (3 <=? S j)%nat with (2 <=? j)%nat in Hj. rewrite Hj.
  apply IH. destruct (word_char c); [|reflexivity]. cbn in *.
  destruct j as [|[|[|j]]]; try reflexivity; discriminate.
Qed.

Lemma no_stutter_re_sub (s : str) : no_stutter (re_sub stutter 0 s) = true.
Proof.
  remember (List.length s) as n eqn:Hn.
  revert s Hn. induction n as [n IH] using (well_founded_induction Wf_nat.lt_wf).
  intros [|c t] Hn; [reflexivity|].
  destruct (run_split c t) as (r & Ht & Hr).
  set (k := greedy (N.eqb c) t) in *.
  assert (Hs : c :: t = repeat c (S k) ++ r) by (cbn; now rewrite <- Ht).
  assert (Hrec : no_stutter (re_sub stutter 0 r) = true).
  { apply (IH (List.length r)); [|reflexivity].
    subst n. rewrite Hs, length_app, repeat_length. lia. }
  rewrite Hs, (re_sub_stutter_run c k r Hr).
  apply greedy_zero_re_sub_stutter in Hr.
  destruct (word_char c && (3 <=? S k)%nat) eqn:Hm.
  - apply (no_stutter_run c 1 _ Hr); [|assumption]. now rewrite andb_false_r.
  - now apply no_stutter_run.
Qed.

Lemma greedy_app_stop (p : char -> bool) (a : str) (x : char) (r : str) :
  p x = false -> greedy p (a ++ x :: r) = greedy p a.
Proof.
  intros Hx. induction a as [|c a IH]; cbn; [now rewrite Hx|].
  destruct (p c); [now rewrite IH | reflexivity].
Qed.

Lemma no_stutter_app_sep (w : str) (x : char) (r : str) :
  forallb (fun c => negb (N.eqb c x)) w = true ->
  no_stutter (w ++ x :: r) = no_stutter w && no_stutter (x :: r).
Proof.
  induction w as [|c w IH]; [reflexivity|].
  cbn [forallb]. intros H. apply andb_true_iff in H. destruct H as [Hc Hw].
  apply negb_true_iff in Hc.
  cbn [app no_stutter stutter]. rewrite (greedy_app_stop (N.eqb c) w x r Hc).
  destruct (word_char c); [|now apply IH].
  destruct (2 <=? greedy (N.eqb c) w)%nat; [reflexivity | now apply IH].
Qed.

Lemma no_stutter_tail (c : char) (t : str) :
  no_stutter (c :: t) = true -> no_stutter t = true.
Proof.
  cbn [no_stutter]. destruct (stutter (c :: t)); [discriminate | trivial].
Qed.

Lemma other_differs (x : char) (w : str) :
  ISSPACE x = true -> forallb other w = true ->
  forallb (fun c => negb (N.eqb c x)) w = true.
Proof.
  intros Hx Hw. apply forallb_forall. intros c Hin.
  rewrite forallb_forall in Hw. specialize (Hw c Hin). unfold other in Hw.
  apply negb_true_iff. apply negb_true_iff in Hw.
  destruct (N.eqb_spec c x); [congruence | reflexivity].
Qed.

Lemma starts_other_false (rest : str) :
  starts_other rest = false ->
  rest = [] \/ exists x r, rest = x :: r /\ ISSPACE x = true.
Proof.
  destruct rest as [|x r]; [now left|]. cbn. unfold other. intros H.
  apply negb_false_iff in H. right. now exists x, r.
Qed.

Lemma no_stutter_split (s : str) :
  no_stutter s = true -> Forall (fun w => no_stutter w = true) (split s).
Proof.
  remember (List.length s) as n eqn:Hn.
  revert s Hn. induction n as [n IH] using (well_founded_induction Wf_nat.lt_wf).
  intros [|c t] Hn Hns; [constructor|].
  destruct (ISSPACE c) eqn:Hc.
  - rewrite (split_cons_space c t Hc).
    apply (IH (List.length t)); [subst n; cbn; lia | reflexivity |].
    now apply no_stutter_tail in Hns.
  - destruct (first_token c t Hc) as (w & rest & Hs & Hw & Hrest & Hsp).
    rewrite Hsp. rewrite Hs in Hns.
    assert (Hlen : List.length rest < n).
    { subst n. rewrite Hs, length_app. cbn. lia. }
    destruct (starts_other_false rest Hrest) as [->|(x & r & -> & Hx)].
    + rewrite app_nil_r in Hns. constructor; [assumption | constructor].
    + rewrite (no_stutter_app_sep _ x r (other_differs x _ Hx Hw)) in Hns.
      apply andb_true_iff in Hns. destruct Hns as [H1 H2].
      constructor; [assumption|].
      apply (IH _ Hlen); [reflexivity | assumption].
Qed.

Lemma no_stutter_join {L : UnicodeLaws U} (ws : list str) :
  Forall token ws -> Forall (fun w => no_stutter w = true) ws ->
  no_stutter (join [32%N] ws) = true.
Proof.
  induction ws as [|w ws IH]; intros Ht Hn; [reflexivity|].
  inversion Ht as [|? ? [Hne Hw] Hts]; subst.
  inversion Hn as [|? ? Hnw Hns]; subst.
  destruct ws as [|w' ws]; [exact Hnw|].
  change (join [32%N] (w :: w' :: ws)) with (w ++ 32%N :: join [32%N] (w' :: ws)).
  rewrite (no_stutter_app_sep w _ _ (other_differs _ w space_is_space Hw)), Hnw.
  cbn [andb no_stutter]. specialize (IH Hts Hns).
  inversion Hts as [|? ? [Hne' Hw'] _]; subst.
  destruct w' as [|c' w']; [contradiction|].
  match goal with |- context [stutter ?x] => assert (Hst : stutter x = None) end.
  { unfold stutter. destruct (word_char 32%N); [|reflexivity].
    match goal with |- context [greedy ?p ?x] => assert (Hg : greedy p x = 0) end.
    { cbn [forallb] in Hw'. apply andb_true_iff in Hw'. destruct Hw' as [Hc' _].
      destruct ws; cbn [join app greedy];
        (destruct (N.eqb_spec 32%N c') as [<-|]; [now rewrite other_space in Hc' | reflexivity]). }
    now rewrite Hg. }
  rewrite Hst. exact IH.
Qed.

(** *** First occurrences *)

Lemma first_occurrences_incl (l : list str) (w : str) :
  In w (first_occurrences l) -> In w l.
Proof.
  induction l as [|v l IH]; [trivial|]. cbn [first_occurrences].
  intros [->|H]; [now left|]. right. apply IH. now apply filter_In in H.
Qed.

Lemma first_occurrences_NoDup (l : list str) : NoDup (first_occurrences l).
Proof.
  induction l as [|v l IH]; [constructor|]. cbn [first_occurrences].
  constructor.
  - intros H. apply filter_In in H. destruct H as [_ H].
    destruct (str_eq_dec v v); [discriminate | contradiction].
  - now apply NoDup_filter.
Qed.

Lemma filter_absent (v : str) (l : list str) :
  ~ In v l ->
  filter (fun x => if str_eq_dec x v then false else true) l = l.
Proof.
  induction l as [|x l IH]; [reflexivity|].
  intros H. cbn [filter]. destruct (str_eq_dec x v) as [->|Hne].
  - exfalso. apply H. now left.
  - f_equal. apply IH. intros Hin. apply H. now right.
Qed.

Lemma first_occurrences_id (l : list str) :
  NoDup l -> first_occurrences l = l.
Proof.
  induction l as [|v l IH]; [reflexivity|].
  intros H. inversion H as [|? ? Hv Hl]; subst.
  cbn [first_occurrences]. rewrite (IH Hl). f_equal. now apply filter_absent.
Qed.

Lemma Forall_first_occurrences (P : str -> Prop) (l : list str) :
  Forall P l -> Forall P (first_occurrences l).
Proof.
  intros H. apply Forall_forall. intros w Hw.
  rewrite Forall_forall in H. apply H. now apply first_occurrences_incl.
Qed.

Lemma clean_repetitions_words {L : UnicodeLaws U} (s : str) :
  clean_repetitions s
  = join [32%N] (first_occurrences (split (re_sub stutter 0 s))).
Proof.
  now rewrite clean_repetitions_loop, split_re_sub_spaces.
Qed.

(** A list of distinct words without stutter, joined by single spaces,
    is left as it is. *)
Lemma clean_repetitions_fixed {L : UnicodeLaws U} (ws : list str) :
  Forall token ws -> Forall (fun w => no_stutter w = true) ws -> NoDup ws ->
  clean_repetitions (join [32%N] ws) = join [32%N] ws.
Proof.
  intros Ht Hn Hd. rewrite clean_repetitions_words.
  rewrite (re_sub_no_stutter _ (no_stutter_join ws Ht Hn)).
  rewrite (split_join ws Ht). now rewrite first_occurrences_id.
Qed.

End Regex.

(** ** The order of binary64 floats *)

Ltac cmp_cases :=
  repeat match goal with
  | H : context [ Z.compare ?a ?b ] |- _ => destruct (Z.compare_spec a b)
  | H : context [ Pos.compare ?a ?b ] |- _ => destruct (Pos.compare_spec a b)
  | |- context [ Z.compare ?a ?b ] => destruct (Z.compare_spec a b)
  | |- context [ Pos.compare ?a ?b ] => destruct (Pos.compare_spec a b)
  end.

Ltac sf_cases x := destruct x as [[|]|[|]| |[|] ? ?].

Lemma SFcompare_lt_trans (x y z : spec_float) :
  SFcompare x y = Some Lt -> SFcompare y z = Some Lt -> SFcompare x z = Some Lt.
Proof.
  sf_cases x; sf_cases y; sf_cases z; simpl; try discriminate; try reflexivity;
  change (Pos.compare_cont Eq) with Pos.compare;
  intros H1 H2; cmp_cases; simpl in *; try discriminate; try reflexivity; try lia.
Qed.

Lemma SFcompare_lt_irrefl (x : spec_float) : SFcompare x x <> Some Lt.
Proof.
  sf_cases x; simpl; try discriminate;
  change (Pos.compare_cont Eq) with Pos.compare;
  rewrite Z.compare_refl, Pos.compare_refl; simpl; discriminate.
Qed.



Lemma float_eqb_true (x y : float) :
  PrimFloat.eqb x y = true <-> SFcompare (Prim2SF x) (Prim2SF y) = Some Eq.
Proof.
  rewrite FloatAxioms.eqb_spec. unfold SFeqb.
  destruct (SFcompare (Prim2SF x) (Prim2SF y)) as [[| |]|]; split; congruence.
Qed.





(** ** [max] *)








(** ** A stable sort, and what [sorted] promises *)

Section Sorting.
Context {A : Type} (key : A -> float).

Let upto (a b : A) : Prop := PrimFloat.leb (key a) (key b) = true.










End Sorting.



(** ** The sorted band is determined *)

Lemma float_leb_true (x y : float) :
  PrimFloat.leb x y = true
  <-> SFcompare (Prim2SF x) (Prim2SF y) = Some Lt
      \/ SFcompare (Prim2SF x) (Prim2SF y) = Some Eq.
Proof.
  rewrite FloatAxioms.leb_spec. unfold SFleb.
  destruct (SFcompare (Prim2SF x) (Prim2SF y)) as [[| |]|]; split;
    try tauto; try discriminate; intros [H|H]; discriminate.
Qed.

Lemma SFcompare_eq_trans (x y z : spec_float) :
  SFcompare x y = Some Eq -> SFcompare y z = Some Eq -> SFcompare x z = Some Eq.
Proof.
  sf_cases x; sf_cases y; sf_cases z; simpl; try discriminate; try reflexivity;
  change (Pos.compare_cont Eq) with Pos.compare;
  intros H1 H2; cmp_cases; simpl in *; try discriminate; try reflexivity; try lia.
Qed.

Lemma SFcompare_lt_eq_trans (x y z : spec_float) :
  SFcompare x y = Some Lt -> SFcompare y z = Some Eq -> SFcompare x z = Some Lt.
Proof.
  sf_cases x; sf_cases y; sf_cases z; simpl; try discriminate; try reflexivity;
  change (Pos.compare_cont Eq) with Pos.compare;
  intros H1 H2; cmp_cases; simpl in *; try discriminate; try reflexivity; try lia.
Qed.

Lemma SFcompare_eq_lt_trans (x y z : spec_float) :
  SFcompare x y = Some Eq -> SFcompare y z = Some Lt -> SFcompare x z = Some Lt.
Proof.
  sf_cases x; sf_cases y; sf_cases z; simpl; try discriminate; try reflexivity;
  change (Pos.compare_cont Eq) with Pos.compare;
  intros H1 H2; cmp_cases; simpl in *; try discriminate; try reflexivity; try lia.
Qed.

Lemma SFcompare_eq_sym (x y : spec_float) :
  SFcompare x y = Some Eq -> SFcompare y x = Some Eq.
Proof.
  sf_cases x; sf_cases y; simpl; try discriminate; try reflexivity;
  change (Pos.compare_cont Eq) with Pos.compare;
  intros H1; cmp_cases; simpl in *; try discriminate; try reflexivity; try lia.
Qed.

Lemma float_leb_trans (x y z : float) :
  PrimFloat.leb x y = true -> PrimFloat.leb y z = true -> PrimFloat.leb x z = true.
Proof.
  rewrite !float_leb_true. intros [H1|H1] [H2|H2].
  - left. exact (SFcompare_lt_trans _ _ _ H1 H2).
  - left. exact (SFcompare_lt_eq_trans _ _ _ H1 H2).
  - left. exact (SFcompare_eq_lt_trans _ _ _ H1 H2).
  - right. exact (SFcompare_eq_trans _ _ _ H1 H2).
Qed.

Lemma float_leb_antisym (x y : float) :
  PrimFloat.leb x y = true -> PrimFloat.leb y x = true -> PrimFloat.eqb x y = true.
Proof.
  rewrite !float_leb_true, float_eqb_true. intros [H1|H1] [H2|H2]; try assumption.
  - exfalso. exact (SFcompare_lt_irrefl _ (SFcompare_lt_trans _ _ _ H1 H2)).
  - exfalso. exact (SFcompare_lt_irrefl _ (SFcompare_lt_eq_trans _ _ _ H1 H2)).
Qed.

Lemma float_leb_number (x y : float) :
  PrimFloat.leb x y = true -> PrimFloat.eqb y y = true.
Proof.
  rewrite float_leb_true, float_eqb_true.
  intros [H|H]; revert H; generalize (Prim2SF x), (Prim2SF y); intros a b;
    sf_cases a; sf_cases b; simpl; try discriminate; try reflexivity;
    intros _; now rewrite Z.compare_refl, Pos.compare_cont_refl.
Qed.

Section Unique.
Context {A : Type} (key : A -> float).

Let upto (a b : A) : Prop := PrimFloat.leb (key a) (key b) = true.
Let tie (k : float) (a : A) : bool := PrimFloat.eqb (key a) k.

Lemma upto_trans : Relations_1.Transitive upto.
Proof. intros a b c. apply float_leb_trans. Qed.

Lemma sorted_by_unique (s1 s2 : list A) :
  Permutation s1 s2 -> Sorted upto s1 -> Sorted upto s2 ->
  (forall k, filter (tie k) s1 = filter (tie k) s2) ->
  s1 = s2.
Proof.
  revert s2. induction s1 as [|a s1 IH]; intros s2 Hp H1 H2 Ht.
  - now apply Permutation_nil in Hp.
  - destruct s2 as [|b s2]; [now apply Permutation_sym, Permutation_nil in Hp|].
    assert (Hab : a = b).
    { pose proof (Sorted_StronglySorted upto_trans H1) as S1.
      pose proof (Sorted_StronglySorted upto_trans H2) as S2.
      inversion S1 as [|? ? _ F1]; subst. inversion S2 as [|? ? _ F2]; subst.
      rewrite Forall_forall in F1, F2.
      destruct (Permutation_in b (Permutation_sym Hp) (or_introl eq_refl)) as [E|Hb];
        [exact E|].
      destruct (Permutation_in a Hp (or_introl eq_refl)) as [E|Ha]; [now symmetry|].
      pose proof (F1 b Hb) as Hab. pose proof (F2 a Ha) as Hba. unfold upto in Hab, Hba.
      specialize (Ht (key b)). unfold tie in Ht. cbn [filter] in Ht.
      rewrite (float_leb_antisym _ _ Hab Hba), (float_leb_number _ _ Hab) in Ht.
      now injection Ht. }
    subst b. f_equal. apply IH.
    + exact (Permutation_cons_inv Hp).
    + now inversion H1.
    + now inversion H2.
    + intros k. specialize (Ht k). cbn [filter] in Ht.
      destruct (tie k a); [now injection Ht | exact Ht].
Qed.

End Unique.

(** The claim's sort has one result: two selections that are the
    spans [l] sorted by height, spans of equal height in the order they
    had, are the same list. *)
Lemma StableSorted_unique (l s1 s2 : list Block) :
  StableSorted l s1 -> StableSorted l s2 -> s1 = s2.
Proof.
  intros (P1 & S1 & T1) (P2 & S2 & T2).
  apply (sorted_by_unique height); try assumption.
  - now rewrite P1, P2.
  - intros k. now rewrite T1, T2.
Qed.

(** ** The claims on the repetition cleaner *)

(** C3, as the code has it. [clean_repetitions] is the three-step
    transform in which step 1 collapses the maximal runs of 3 or more
    copies of a word character (alphanumeric or underscore), step 2 turns
    each run of 2 or more white-space characters into one space, and step
    3 keeps the first occurrence of each token, the tokens joined by one
    space. "Reeeequest" gives "Request" and "Proposal Draft Proposal"
    gives "Proposal Draft". *)
Theorem clean_repetitions_reference :
  (forall (U : UnicodeDB) (s : str),
     clean_repetitions s = three_steps word_char s)
  /\ (forall (U : UnicodeDB), UnicodeLaws U ->
        clean_repetitions (u "Reeeequest") = u "Request")
  /\ (forall (U : UnicodeDB), UnicodeLaws U ->
        clean_repetitions (u "Proposal Draft Proposal") = u "Proposal Draft").
Proof.
  split; [| split; intros U L; now rewrite clean_repetitions_ascii].
  intros U s. unfold three_steps.
  rewrite clean_repetitions_loop.
  rewrite (re_sub_stutter_runs s).
  rewrite (re_sub_spaces_runs (collapse_runs word_char s)).
  reflexivity.
Qed.

Lemma clean_repetitions_reference_witness :
  @clean_repetitions basic_latin (u "Reeeequest") = u "Request".
Proof.
  apply (proj1 (proj2 clean_repetitions_reference) basic_latin basic_latin_laws).
Defined.

(** The claim C3 as stated, with runs of characters of any kind
    collapsed, fails on "Wait...": the three dots are not word
    characters and stay. *)
Lemma clean_repetitions_keeps_dots :
  @clean_repetitions basic_latin (u "Wait...") = u "Wait..."
  /\ @three_steps basic_latin (fun _ => true) (u "Wait...") = u "Wait."
  /\ @clean_repetitions basic_latin (u "Wait...")
     <> @three_steps basic_latin (fun _ => true) (u "Wait...").
Proof.
  split; [reflexivity|]. split; [reflexivity|].
  vm_compute. discriminate.
Qed.

Lemma clean_repetitions_keeps_dots_any_table (U : UnicodeDB) (L : UnicodeLaws U) :
  clean_repetitions (u "Wait...") = u "Wait...".
Proof.
  now rewrite clean_repetitions_ascii.
Qed.

(** C5. Cleaning a cleaned text changes nothing. *)
Theorem clean_repetitions_idempotent :
  forall (U : UnicodeDB), UnicodeLaws U ->
  forall s : str,
    clean_repetitions (clean_repetitions s) = clean_repetitions s.
Proof.
  intros U L s.
  rewrite (clean_repetitions_words s).
  apply clean_repetitions_fixed.
  - apply Forall_first_occurrences, split_tokens.
  - apply Forall_first_occurrences, no_stutter_split, no_stutter_re_sub.
  - apply first_occurrences_NoDup.
Qed.

Lemma clean_repetitions_idempotent_witness :
  @clean_repetitions basic_latin
    (@clean_repetitions basic_latin (u "  Draaaft   Proposal -- Draft  Draft"))
  = @clean_repetitions basic_latin (u "  Draaaft   Proposal -- Draft  Draft").
Proof.
  apply (clean_repetitions_idempotent basic_latin basic_latin_laws).
Defined.

(** ** The title *)





Example title_of_scenario :
  @detect_title basic_latin Fixtures.stable_sort
    [ Fixtures.span (u "TITLE OF PAPER") 24 1 10;
      Fixtures.span (u "Introduction") 20.04 1 50;
      Fixtures.span (u "This describes the background.") 12 1 80 ] "en"
  = u "TITLE OF PAPER".
Proof. vm_compute. reflexivity. Qed.

Example title_sorted_by_height :
  @detect_title basic_latin Fixtures.stable_sort
    [ Fixtures.span (u "Introduction") 20.04 1 50;
      Fixtures.span (u "OF PAPER") 24 1 30;
      Fixtures.span (u "TITLE") 24 1 10;
      Fixtures.span (u "Appendix") 30 2 10 ] "en"
  = u "TITLE OF PAPER".
Proof. vm_compute. reflexivity. Qed.

(* ================================================================== *)
(** * Further properties of the code                                   *)
(* ================================================================== *)

Import Views.

(** ** The outline is built span by span *)

Section OutlineStructure.
Context {U : UnicodeDB} {SP : Spacy}.

Lemma outline_step_acc (fs : Level -> float) (lang_code : string)
    (acc : list HeadingEntry) (b : Block) :
  outline_step fs lang_code acc b
  = bind (outline_step fs lang_code [] b) (fun o => Ok (acc ++ o)).
Proof.
  unfold outline_step. destruct (heading_level b fs); [|cbn; now rewrite app_nil_r].
  destruct (is_heading_candidate b lang_code) as [[|]|e]; cbn; try reflexivity.
  now rewrite app_nil_r.
Qed.

Lemma outline_fold_raise (fs : Level -> float) (lang_code : string)
    (blocks : list Block) (e : exn) :
  fold_left (fun acc block => bind acc (fun outline =>
               outline_step fs lang_code outline block)) blocks (Raise e)
  = Raise e.
Proof. induction blocks as [|b bs IH]; [reflexivity | exact IH]. Qed.

Lemma outline_fold_acc (fs : Level -> float) (lang_code : string)
    (blocks : list Block) (acc : list HeadingEntry) :
  fold_left (fun acc block => bind acc (fun outline =>
               outline_step fs lang_code outline block)) blocks (Ok acc)
  = bind (fold_left (fun acc block => bind acc (fun outline =>
               outline_step fs lang_code outline block)) blocks (Ok []))
      (fun o => Ok (acc ++ o)).
Proof.
  revert acc. induction blocks as [|b bs IH]; intros acc.
  - cbn. now rewrite app_nil_r.
  - cbn [fold_left bind]. rewrite (outline_step_acc fs lang_code acc b).
    destruct (outline_step fs lang_code [] b) as [o|e]; cbn [bind].
    + rewrite (IH (acc ++ o)), (IH o).
      destruct (fold_left _ bs (Ok [])) as [o'|e']; cbn [bind]; [|reflexivity].
      now rewrite app_assoc.
    + now rewrite !outline_fold_raise.
Qed.

(** X1. The outline of two lists of spans put end to end is the outline of
    the first followed by the outline of the second; it raises when
    either does. *)
Theorem extract_outline_app (xs ys : list Block) (lang_code : string) :
  extract_outline (xs ++ ys) lang_code
  = bind (extract_outline xs lang_code) (fun a =>
    bind (extract_outline ys lang_code) (fun b => Ok (a ++ b))).
Proof.
  unfold extract_outline. rewrite fold_left_app.
  change (compute_font_stats (xs ++ ys)) with (compute_font_stats xs).
  change (compute_font_stats ys) with (compute_font_stats xs).
  destruct (fold_left _ xs (Ok [])) as [a|e]; cbn [bind].
  - apply outline_fold_acc.
  - apply outline_fold_raise.
Qed.


(** [is_heading_candidate], test by test. *)
Lemma is_heading_candidate_tests (b : Block) (lang_code : string) :
  is_heading_candidate b lang_code
  = if passes_first_tests lang_code b
    then bind (is_full_sentence (text b) lang_code) (fun full =>
           Ok (negb full && case_signal lang_code (text b)))
    else Ok false.
Proof.
  unfold is_heading_candidate, passes_first_tests, case_signal.
  destruct (text b) as [|c t]; [reflexivity|].
  cbn [truthy negb starts_with_bullet getitem nth_error bind truth].
  destruct (existsb (N.eqb c) bullets); [reflexivity|].
  destruct (is_short (c :: t) 14 80 lang_code); [|reflexivity].
  cbn [negb andb bind]. destruct (is_full_sentence (c :: t) lang_code) as [[|]|e];
    cbn [bind negb andb]; try reflexivity.
  now destruct (_ || _ || _).
Qed.

Lemma extract_outline_cons (b : Block) (bs : list Block) (lang_code : string) :
  extract_outline (b :: bs) lang_code
  = bind (outline_step (compute_font_stats []) lang_code [] b) (fun a =>
    bind (extract_outline bs lang_code) (fun o => Ok (a ++ o))).
Proof.
  unfold extract_outline. cbn [fold_left bind].
  change (compute_font_stats (b :: bs)) with (compute_font_stats []).
  change (compute_font_stats bs) with (compute_font_stats []).
  destruct (outline_step (compute_font_stats []) lang_code [] b) as [a|e]; cbn [bind].
  - apply outline_fold_acc.
  - apply outline_fold_raise.
Qed.

(** X2. When the model of the language cannot be loaded, the outline is
    still returned, empty, if no span gets as far as the sentence test
    (a level from the font table, a non-empty text without bullet that
    is short); otherwise the exception of the loader reaches the caller. *)
Theorem extract_outline_without_model (blocks : list Block) (lang_code : string) (e : exn) :
  get_nlp lang_code = Raise e ->
  extract_outline blocks lang_code
  = if existsb (reaches_sentence_test lang_code) blocks then Raise e else Ok [].
Proof.
  intros Hnlp. induction blocks as [|b bs IH]; [reflexivity|].
  rewrite extract_outline_cons, IH. cbn [existsb].
  unfold outline_step, reaches_sentence_test.
  destruct (heading_level b (compute_font_stats [])) as [lv|]; cbn [bind orb].
  - rewrite is_heading_candidate_tests.
    destruct (passes_first_tests lang_code b); cbn [bind orb].
    + unfold is_full_sentence. rewrite Hnlp. reflexivity.
    + now destruct (existsb _ bs).
  - now destruct (existsb _ bs).
Qed.

(** X3. No span is a heading under the language code ja: the three case
    tests all answer no. With the Japanese model loaded the outline is
    empty, whatever the spans. *)
Theorem extract_outline_japanese_empty (blocks : list Block) (nlp : Language) :
  get_nlp "ja" = Ok nlp ->
  extract_outline blocks "ja" = Ok [].
Proof.
  intros Hnlp. induction blocks as [|b bs IH]; [reflexivity|].
  rewrite extract_outline_cons, IH. unfold outline_step.
  destruct (heading_level b (compute_font_stats [])) as [lv|]; [|reflexivity].
  rewrite is_heading_candidate_tests.
  destruct (passes_first_tests "ja" b); [|reflexivity].
  unfold is_full_sentence. rewrite Hnlp. cbn [bind].
  assert (Hc : case_signal "ja" (text b) = false) by reflexivity.
  rewrite Hc, andb_false_r. reflexivity.
Qed.

End OutlineStructure.

(** ** The uppercase ratio on short texts *)

Lemma ratio_table : ratio_table_ok = true.
Proof. vm_compute. reflexivity. Qed.

Lemma ratio_small (k n : nat) :
  1 <= n <= 80 -> k <= n ->
  PrimFloat.ltb 0.5 (ratio_of k n) = (n <? 2 * k)%nat
  /\ PrimFloat.leb 0 (ratio_of k n) = true
  /\ PrimFloat.leb (ratio_of k n) 1 = true.
Proof.
  intros Hn Hk. pose proof ratio_table as T. unfold ratio_table_ok in T.
  rewrite forallb_forall in T.
  assert (Hin : In n (seq 1 80)) by (apply in_seq; lia).
  specialize (T n Hin). rewrite forallb_forall in T.
  assert (Hik : In k (seq 0 (S n))) by (apply in_seq; lia).
  specialize (T k Hik). cbv zeta in T.
  apply andb_true_iff in T. destruct T as [T T3].
  apply andb_true_iff in T. destruct T as [T1 T2].
  apply eqb_prop in T1. auto.
Qed.

Section Case.
Context {U : UnicodeDB}.

Lemma uppers_le_letters (text : str) :
  List.length (uppers text) <= List.length (letters text) <= List.length text.
Proof. unfold uppers, letters. split; apply filter_length_le. Qed.

Lemma uppercase_ratio_unfold (text : str) (lang_code : string) :
  String.eqb lang_code "ja" = false ->
  letters text <> [] ->
  uppercase_ratio text lang_code
  = ratio_of (List.length (uppers text)) (List.length (letters text)).
Proof.
  intros Hl Hne. unfold uppercase_ratio. rewrite Hl. fold (letters text).
  destruct (letters text) eqn:E; [contradiction|].
  unfold uppers, ratio_of, len. now rewrite E.
Qed.

(** X4. On a text of at most 80 characters (the texts the heading test
    looks at) and a language code other than ja, the uppercase ratio
    lies between 0 and 1 and exceeds 0.5 exactly when more than half of
    the alphabetic characters are uppercase. *)
Theorem uppercase_ratio_majority (text : str) (lang_code : string) :
  String.eqb lang_code "ja" = false ->
  List.length text <= 80 ->
  (PrimFloat.ltb 0.5 (uppercase_ratio text lang_code) = true
   <-> List.length (letters text) < 2 * List.length (uppers text))
  /\ PrimFloat.leb 0 (uppercase_ratio text lang_code) = true
  /\ PrimFloat.leb (uppercase_ratio text lang_code) 1 = true.
Proof.
  intros Hl Hlen. pose proof (uppers_le_letters text) as [Hu Hle].
  destruct (letters text) as [|c ls] eqn:E.
  - unfold uppercase_ratio. rewrite Hl. fold (letters text). rewrite E. cbn [truthy negb].
    cbn [List.length] in *. repeat split; try reflexivity; [discriminate | lia].
  - assert (Hne : letters text <> []) by (rewrite E; discriminate).
    rewrite (uppercase_ratio_unfold text lang_code Hl Hne), E.
    destruct (ratio_small (List.length (uppers text)) (List.length (c :: ls)))
      as (H1 & H2 & H3); [cbn [List.length] in *; lia | assumption |].
    rewrite H1. repeat split; try assumption.
    + intros H. now apply Nat.ltb_lt in H.
    + intros H. now apply Nat.ltb_lt.
Qed.

End Case.

(** ** What title case and all caps require *)

Section CaseTests.
Context {U : UnicodeDB}.

(** The words of a text are made of its characters. *)
Lemma split_Forall (P : char -> Prop) (s : str) :
  Forall P s -> Forall (Forall P) (split s).
Proof.
  induction s as [|c t IH]; intros H; [constructor|].
  inversion H as [|? ? Hc Ht]; subst. specialize (IH Ht). cbn [split].
  destruct (ISSPACE c); [assumption|].
  destruct t as [|d t']; [repeat constructor; assumption|].
  destruct (ISSPACE d); [constructor; [repeat constructor|]; assumption|].
  destruct (split (d :: t')) as [|w ws]; [repeat constructor; assumption|].
  inversion IH; subst. constructor; [constructor|]; assumption.
Qed.

Lemma split_chars (s w : str) (c : char) :
  In w (split s) -> In c w -> In c s.
Proof.
  intros Hw Hc.
  assert (H : Forall (Forall (fun c => In c s)) (split s)).
  { apply split_Forall. apply Forall_forall. trivial. }
  rewrite Forall_forall in H. specialize (H w Hw).
  rewrite Forall_forall in H. now apply H.
Qed.

Lemma cased_scan_true (bad good : char -> bool) (s : str) (cased : bool) :
  cased_scan bad good cased s = true ->
  (forall d, In d s -> bad d = false)
  /\ (cased = true \/ exists d, In d s /\ good d = true).
Proof.
  revert cased. induction s as [|c t IH]; intros cased H.
  - cbn in H. split; [intros d []|now left].
  - cbn [cased_scan] in H. destruct (bad c) eqn:Hb; [discriminate|].
    destruct (IH _ H) as [Hall Hex]. split.
    + intros d [<-|Hd]; [assumption | now apply Hall].
    + destruct Hex as [Hc|(d & Hd & Hg)].
      * apply orb_true_iff in Hc. destruct Hc as [Hc|Hc]; [now left|].
        right. exists c. split; [now left | assumption].
      * right. exists d. split; [now right | assumption].
Qed.

Lemma islower_true {L : UnicodeLaws U} (s : str) :
  islower s = true ->
  s <> []
  /\ (forall d, In d s -> ISUPPER d = false /\ ISTITLE d = false)
  /\ (exists d, In d s /\ ISLOWER d = true).
Proof.
  intros H. destruct s as [|c [|d t]].
  - discriminate.
  - cbn in H. split; [discriminate|]. split.
    + intros d [<-|[]]. split; [now apply lower_not_upper | now apply lower_not_title].
    + exists c. split; [now left | assumption].
  - unfold islower in H. apply cased_scan_true in H. destruct H as [Hall Hex].
    split; [discriminate|]. split.
    + intros x Hx. specialize (Hall x Hx). now apply orb_false_iff in Hall.
    + destruct Hex as [Hc|Hex]; [discriminate | exact Hex].
Qed.

(** X5. A text in title case has an alphabetic word, and each of its
    alphabetic words has two characters or more: an uppercase one, then
    characters none of which is uppercase or titlecase and one of which
    is lowercase. A word of one letter, as in "A Study", rules the text
    out. *)
Theorem is_title_case_requires {L : UnicodeLaws U} (text : str) (lang_code : string) :
  is_title_case text lang_code = true ->
  String.eqb lang_code "ja" = false
  /\ filter isalpha (split text) <> []
  /\ forall w, In w (filter isalpha (split text)) ->
       exists c rest,
         w = c :: rest
         /\ 2 <= List.length w
         /\ ISUPPER c = true
         /\ (forall d, In d rest -> ISUPPER d = false /\ ISTITLE d = false)
         /\ (exists d, In d rest /\ ISLOWER d = true).
Proof.
  unfold is_title_case. destruct (String.eqb lang_code "ja"); [discriminate|].
  destruct (filter isalpha (split text)) as [|w0 ws] eqn:E; [discriminate|].
  cbn [negb]. intros H. split; [reflexivity|]. split; [discriminate|].
  rewrite forallb_forall in H. intros w Hw. specialize (H w Hw).
  destruct w as [|c rest]; [discriminate|]. cbn [title_word isupper] in H.
  apply andb_true_iff in H. destruct H as [Hc Hrest].
  destruct (islower_true rest Hrest) as (Hne & Hall & Hex).
  exists c, rest. repeat split; try assumption; try (now apply Hall).
  destruct rest; [contradiction | cbn; lia].
Qed.

(** X6. A text in title case is not all caps. *)
Theorem is_title_case_not_all_caps {L : UnicodeLaws U} (text : str) (lang_code : string) :
  is_title_case text lang_code = true -> is_all_caps text lang_code = false.
Proof.
  unfold is_title_case, is_all_caps.
  destruct (String.eqb lang_code "ja"); [discriminate|].
  destruct (filter isalpha (split text)) as [|w ws] eqn:E; [discriminate|].
  cbn [negb forallb]. intros H. apply andb_true_iff in H. destruct H as [Hw _].
  assert (Hin : In w (filter isalpha (split text))) by (rewrite E; now left).
  apply filter_In in Hin. destruct Hin as [Hin Halpha].
  destruct w as [|c rest]; [discriminate|]. cbn [title_word] in Hw.
  apply andb_true_iff in Hw. destruct Hw as [_ Hrest].
  destruct (islower_true rest Hrest) as (_ & _ & d & Hd & Hlow).
  assert (Hdt : In d text) by (apply (split_chars text (c :: rest) d Hin); now right).
  assert (Hda : isalpha [d] = true).
  { unfold isalpha in Halpha |- *. apply andb_true_iff in Halpha. destruct Halpha as [_ Hf].
    rewrite forallb_forall in Hf. cbn. rewrite (Hf d (or_intror Hd)). reflexivity. }
  apply andb_false_iff. right.
  apply not_true_is_false. intros Hf. rewrite forallb_forall in Hf.
  assert (Hdl : In d (filter (fun c => isalpha [c]) text)) by (apply filter_In; now split).
  specialize (Hf d Hdl). cbn in Hf. rewrite (lower_not_upper d Hlow) in Hf. discriminate.
Qed.

End CaseTests.

(** ** Heading candidates have an uppercase letter *)

(** X7. A span accepted as heading candidate has a text of at most 80
    characters that contains an uppercase alphabetic character: a text
    of digits and punctuation only, or all in lowercase, is never a
    heading. *)
Theorem heading_candidate_has_uppercase {U : UnicodeDB} {SP : Spacy}
    (b : Block) (lang_code : string) :
  is_heading_candidate b lang_code = Ok true ->
  List.length (text b) <= 80
  /\ exists c, In c (text b) /\ ISALPHA c = true /\ ISUPPER c = true.
Proof.
  rewrite is_heading_candidate_tests.
  destruct (passes_first_tests lang_code b) eqn:Hp; [|discriminate].
  destruct (is_full_sentence (text b) lang_code) as [full|e]; [|discriminate].
  cbn [bind]. intros [= H]. apply andb_true_iff in H. destruct H as [_ Hsig].
  assert (Hlen : List.length (text b) <= 80).
  { unfold passes_first_tests in Hp. destruct (text b) as [|c t] eqn:Et; [discriminate|].
    apply andb_true_iff in Hp. destruct Hp as [_ Hs]. unfold is_short, len in Hs.
    destruct (String.eqb lang_code "ja").
    - now apply Nat.leb_le in Hs.
    - apply andb_true_iff in Hs. destruct Hs as [Hs _]. now apply Nat.leb_le in Hs. }
  split; [assumption|].
  destruct (String.eqb lang_code "ja") eqn:Hl.
  { unfold case_signal, is_all_caps, is_title_case, uppercase_ratio in Hsig.
    rewrite Hl in Hsig. discriminate. }
  unfold case_signal in Hsig. apply orb_true_iff in Hsig. destruct Hsig as [Hsig|Hratio].
  apply orb_true_iff in Hsig. destruct Hsig as [Hcaps|Htitle].
  - unfold is_all_caps in Hcaps. rewrite Hl in Hcaps.
    apply andb_true_iff in Hcaps. destruct Hcaps as [Hne Hall].
    destruct (filter (fun c => isalpha [c]) (text b)) as [|c ls] eqn:E; [discriminate|].
    assert (Hc : In c (filter (fun c => isalpha [c]) (text b))) by (rewrite E; now left).
    apply filter_In in Hc. destruct Hc as [Hin Ha].
    cbn [forallb] in Hall. apply andb_true_iff in Hall. destruct Hall as [Hu _].
    exists c. cbn in Ha, Hu. rewrite andb_true_r in Ha. auto.
  - unfold is_title_case in Htitle. rewrite Hl in Htitle.
    destruct (filter isalpha (split (text b))) as [|w ws] eqn:E; [discriminate|].
    cbn [negb forallb] in Htitle. apply andb_true_iff in Htitle. destruct Htitle as [Hw _].
    assert (Hin : In w (filter isalpha (split (text b)))) by (rewrite E; now left).
    apply filter_In in Hin. destruct Hin as [Hin Ha].
    destruct w as [|c rest]; [discriminate|]. cbn [title_word isupper] in Hw.
    apply andb_true_iff in Hw. destruct Hw as [Hu _].
    exists c. split; [apply (split_chars (text b) (c :: rest) c Hin); now left|].
    split; [|assumption]. unfold isalpha in Ha. cbn in Ha.
    apply andb_true_iff in Ha. exact (proj1 Ha).
  - pose proof (uppers_le_letters (text b)) as [Hu Hle].
    destruct (letters (text b)) as [|l0 ls] eqn:El.
    { unfold uppercase_ratio in Hratio. rewrite Hl in Hratio.
      fold (letters (text b)) in Hratio. rewrite El in Hratio. discriminate. }
    assert (Hne : letters (text b) <> []) by (rewrite El; discriminate).
    rewrite (uppercase_ratio_unfold (text b) lang_code Hl Hne), El in Hratio.
    destruct (ratio_small (List.length (uppers (text b))) (List.length (l0 :: ls)))
      as (H1 & _); [cbn [List.length] in *; lia | assumption |].
    rewrite H1 in Hratio. apply Nat.ltb_lt in Hratio.
    destruct (uppers (text b)) as [|c us] eqn:E; [cbn in Hratio; lia|].
    assert (Hc : In c (uppers (text b))) by (rewrite E; now left).
    clear Hu. unfold uppers in Hc. apply filter_In in Hc. destruct Hc as [Hc Hu].
    unfold letters in Hc. apply filter_In in Hc. destruct Hc as [Hin Ha].
    exists c. cbn in Ha, Hu. rewrite andb_true_r in Ha. auto.
Qed.

(** ** The shape of a cleaned text *)

Section Cleaned.
Context {U : UnicodeDB}.

Lemma lstrip_starts_other (s : str) : starts_other s = true -> lstrip s = s.
Proof.
  destruct s as [|c t]; [discriminate|]. cbn. unfold other.
  intros H. apply negb_true_iff in H. now rewrite H.
Qed.

Lemma starts_other_app (a b : str) :
  a <> [] -> starts_other (a ++ b) = starts_other a.
Proof. destruct a; [contradiction | reflexivity]. Qed.

Lemma token_rev_starts (w : str) : token w -> starts_other (rev w) = true.
Proof.
  intros [Hne Hw].
  assert (Hr : forallb other (rev w) = true).
  { apply forallb_forall. intros c Hc. apply in_rev in Hc.
    rewrite forallb_forall in Hw. now apply Hw. }
  destruct (rev w) as [|c t] eqn:E.
  - apply (f_equal (@rev char)) in E. rewrite rev_involutive in E. contradiction.
  - cbn in Hr |- *. apply andb_true_iff in Hr. exact (proj1 Hr).
Qed.

Lemma join_tokens_ends (ws : list str) :
  Forall token ws -> ws <> [] ->
  join [32%N] ws <> [] /\ starts_other (rev (join [32%N] ws)) = true.
Proof.
  induction ws as [|w ws IH]; intros Ht Hne; [contradiction|].
  inversion Ht as [|? ? Hw Hws]; subst.
  destruct ws as [|w' ws].
  - cbn [join]. split; [exact (proj1 Hw) | now apply token_rev_starts].
  - change (join [32%N] (w :: w' :: ws)) with (w ++ 32%N :: join [32%N] (w' :: ws)).
    destruct (IH Hws) as [Hj Hr]; [discriminate|]. split.
    + destruct w; [now destruct Hw | discriminate].
    + rewrite rev_app_distr. cbn [rev]. rewrite <- app_assoc.
      rewrite starts_other_app; [assumption|].
      intros E. apply (f_equal (@rev char)) in E. rewrite rev_involutive in E.
      contradiction.
Qed.

Lemma join_tokens_starts (ws : list str) :
  Forall token ws -> ws <> [] -> starts_other (join [32%N] ws) = true.
Proof.
  intros Ht Hne. destruct ws as [|w ws]; [contradiction|].
  inversion Ht as [|? ? [Hw Ho] _]; subst.
  destruct w as [|c w]; [contradiction|].
  cbn [forallb] in Ho. apply andb_true_iff in Ho.
  destruct ws; cbn; exact (proj1 Ho).
Qed.

Lemma strip_join_tokens (ws : list str) :
  Forall token ws -> strip (join [32%N] ws) = join [32%N] ws.
Proof.
  intros Ht. destruct ws as [|w ws]; [reflexivity|].
  unfold strip, rstrip.
  rewrite (lstrip_starts_other _ (join_tokens_starts _ Ht ltac:(discriminate))).
  destruct (join_tokens_ends (w :: ws) Ht ltac:(discriminate)) as [_ Hr].
  now rewrite (lstrip_starts_other _ Hr), rev_involutive.
Qed.

(** X8. A cleaned text is made of distinct words, none with a run of three
    of a word character, separated by single spaces and without white
    space at either end: splitting it and joining the words with a
    space gives it back, and stripping it changes nothing. *)
Theorem clean_repetitions_shape {L : UnicodeLaws U} (s : str) :
  NoDup (split (clean_repetitions s))
  /\ Forall (fun w => no_stutter w = true) (split (clean_repetitions s))
  /\ join [32%N] (split (clean_repetitions s)) = clean_repetitions s
  /\ strip (clean_repetitions s) = clean_repetitions s.
Proof.
  rewrite (clean_repetitions_words s).
  set (ws := first_occurrences (split (re_sub stutter 0 s))).
  assert (Ht : Forall token ws) by (apply Forall_first_occurrences, split_tokens).
  rewrite (split_join ws Ht). repeat split.
  - apply first_occurrences_NoDup.
  - apply Forall_first_occurrences, no_stutter_split, no_stutter_re_sub.
  - now apply strip_join_tokens.
Qed.

(** *** Lengths *)

Lemma re_sub_length (m : matcher) :
  (forall s n repl, m s = Some (n, repl) -> List.length repl <= 1) ->
  forall (s : str) (skip : nat), List.length (re_sub m skip s) <= List.length s.
Proof.
  intros Hm. induction s as [|c t IH]; intros skip; [cbn; lia|].
  cbn [re_sub]. destruct skip as [|k].
  - destruct (m (c :: t)) as [[n repl]|] eqn:E.
    + rewrite length_app. specialize (Hm _ _ _ E). specialize (IH (Nat.pred n)).
      cbn [List.length]. lia.
    + cbn [List.length]. specialize (IH 0). lia.
  - specialize (IH k). cbn [List.length]. lia.
Qed.

Lemma stutter_short (s : str) (n : nat) (repl : str) :
  stutter s = Some (n, repl) -> List.length repl <= 1.
Proof.
  destruct s as [|c t]; [discriminate|]. unfold stutter.
  destruct (word_char c); [|discriminate].
  destruct (2 <=? greedy (N.eqb c) t)%nat; [|discriminate].
  intros [= _ <-]. cbn. lia.
Qed.

Lemma spaces_short (s : str) (n : nat) (repl : str) :
  spaces s = Some (n, repl) -> List.length repl <= 1.
Proof.
  unfold spaces. destruct (2 <=? greedy ISSPACE s)%nat; [|discriminate].
  intros [= _ <-]. cbn. lia.
Qed.

Lemma join_length (ws : list str) :
  List.length (join [32%N] ws) = joined_length ws.
Proof.
  unfold joined_length. induction ws as [|w ws IH]; [reflexivity|].
  destruct ws as [|w' ws].
  - cbn. lia.
  - change (join [32%N] (w :: w' :: ws)) with (w ++ 32%N :: join [32%N] (w' :: ws)).
    rewrite length_app. cbn [List.length]. rewrite IH.
    cbn [total_length List.length Nat.pred]. unfold str, char in *.
    lia.
Qed.

Lemma filter_lengths (f : str -> bool) (ws : list str) :
  total_length (filter f ws) <= total_length ws
  /\ List.length (filter f ws) <= List.length ws.
Proof.
  induction ws as [|w ws [IH1 IH2]]; [split; reflexivity|].
  cbn [filter]. destruct (f w); cbn [total_length List.length] in *;
    unfold str, char in *; lia.
Qed.

Lemma first_occurrences_lengths (ws : list str) :
  total_length (first_occurrences ws) <= total_length ws
  /\ List.length (first_occurrences ws) <= List.length ws.
Proof.
  induction ws as [|w ws [IH1 IH2]]; [split; reflexivity|].
  cbn [first_occurrences total_length List.length].
  destruct (filter_lengths (fun v => if str_eq_dec v w then false else true)
              (first_occurrences ws)) as [F1 F2].
  unfold str, char in *. lia.
Qed.

Lemma split_joined_length (s : str) :
  joined_length (split s) <= List.length s.
Proof.
  remember (List.length s) as n eqn:Hn.
  revert s Hn. induction n as [n IH] using (well_founded_induction Wf_nat.lt_wf).
  intros [|c t] Hn; [subst; reflexivity|].
  destruct (ISSPACE c) eqn:Hc.
  - rewrite (split_cons_space c t Hc).
    specialize (IH (List.length t) ltac:(subst n; cbn; lia) t eq_refl).
    subst n. cbn [List.length]. lia.
  - destruct (first_token c t Hc) as (w & rest & Hs & Hw & Hrest & Hsp).
    rewrite Hsp. subst n. rewrite Hs, length_app.
    destruct (starts_other_false rest Hrest) as [->|(x & r & -> & Hx)].
    + unfold joined_length. cbn [split total_length List.length Nat.pred].
      unfold str, char in *. lia.
    + rewrite (split_cons_space x r Hx).
      assert (Hr : joined_length (split r) <= List.length r).
      { apply (IH (List.length r)); [|reflexivity].
        rewrite Hs, length_app. cbn [List.length]. lia. }
      unfold joined_length in *. cbn [total_length List.length Nat.pred].
      destruct (split r); cbn [List.length total_length Nat.pred] in *;
        unfold str, char in *; lia.
Qed.

(** X9. Cleaning never makes a text longer. *)
Theorem clean_repetitions_length (s : str) :
  List.length (clean_repetitions s) <= List.length s.
Proof.
  rewrite clean_repetitions_loop, join_length.
  set (t := re_sub spaces 0 (re_sub stutter 0 s)).
  assert (Ht : List.length t <= List.length s).
  { unfold t. pose proof (re_sub_length spaces spaces_short (re_sub stutter 0 s) 0).
    pose proof (re_sub_length stutter stutter_short s 0). lia. }
  pose proof (split_joined_length t) as Hj.
  destruct (first_occurrences_lengths (split t)) as [F1 F2].
  unfold joined_length in *. lia.
Qed.


(** *** Empty results *)

Lemma split_nil_iff (s : str) : split s = [] <-> forallb ISSPACE s = true.
Proof.
  split.
  - induction s as [|c t IH]; [reflexivity|]. intros H.
    destruct (ISSPACE c) eqn:Hc.
    + rewrite (split_cons_space c t Hc) in H. cbn [forallb]. now rewrite Hc, IH.
    + destruct (first_token c t Hc) as (w & rest & _ & _ & _ & Hsp).
      rewrite Hsp in H. discriminate.
  - intros H. rewrite <- (app_nil_r s). now rewrite split_space_block.
Qed.

Lemma re_sub_stutter_chars (s : str) (x : char) :
  In x (re_sub stutter 0 s) <-> In x s.
Proof.
  remember (List.length s) as n eqn:Hn.
  revert s Hn. induction n as [n IH] using (well_founded_induction Wf_nat.lt_wf).
  intros [|c t] Hn; [reflexivity|].
  destruct (run_split c t) as (r & Ht & Hr).
  set (k := greedy (N.eqb c) t) in *.
  assert (Hs : c :: t = repeat c (S k) ++ r) by (cbn; now rewrite <- Ht).
  assert (Hrec : In x (re_sub stutter 0 r) <-> In x r).
  { apply (IH (List.length r)); [|reflexivity].
    subst n. rewrite Hs, length_app, repeat_length. lia. }
  rewrite Hs, (re_sub_stutter_run c k r Hr), !in_app_iff, Hrec.
  assert (Hb : In x (if word_char c && (3 <=? S k)%nat then [c] else repeat c (S k))
               <-> In x (repeat c (S k))).
  { destruct (word_char c && (3 <=? S k)%nat); [|reflexivity].
    cbn [In repeat]. split; [intros [H|[]]; now left|].
    intros [H|H]; [now left|]. apply repeat_spec in H. now left. }
  now rewrite Hb.
Qed.

Lemma first_occurrences_nil (l : list str) : first_occurrences l = [] <-> l = [].
Proof. destruct l; split; intros H; try reflexivity; discriminate. Qed.

(** X10. The cleaned text is empty exactly when the text has only white
    space (or nothing at all). *)
Theorem clean_repetitions_empty {L : UnicodeLaws U} (s : str) :
  clean_repetitions s = [] <-> forallb ISSPACE s = true.
Proof.
  rewrite (clean_repetitions_words s).
  set (ws := first_occurrences (split (re_sub stutter 0 s))).
  assert (Ht : Forall token ws) by (apply Forall_first_occurrences, split_tokens).
  assert (Hj : join [32%N] ws = [] <-> ws = []).
  { split; [|now intros ->]. intros H. destruct ws as [|w ws']; [reflexivity|].
    destruct (join_tokens_ends (w :: ws') Ht) as [Hne _]; [discriminate | contradiction]. }
  rewrite Hj. unfold ws. rewrite first_occurrences_nil, split_nil_iff.
  rewrite !forallb_forall. split; intros H x Hx; apply H; now apply re_sub_stutter_chars.
Qed.

(** *** [strip] *)

Lemma lstrip_shape (s : str) : lstrip s = [] \/ starts_other (lstrip s) = true.
Proof.
  induction s as [|c t IH]; [now left|]. cbn [lstrip].
  destruct (ISSPACE c) eqn:Hc; [assumption|].
  right. cbn. unfold other. now rewrite Hc.
Qed.

Lemma lstrip_fixed (s : str) :
  s = [] \/ starts_other s = true -> lstrip s = s.
Proof. intros [->|H]; [reflexivity | now apply lstrip_starts_other]. Qed.

Lemma lstrip_snoc (a : str) (c : char) :
  ISSPACE c = false -> lstrip (a ++ [c]) = lstrip a ++ [c].
Proof.
  intros Hc. induction a as [|d a IH]; cbn; [now rewrite Hc|].
  destruct (ISSPACE d); [assumption | reflexivity].
Qed.

Lemma rstrip_shape (s : str) :
  rstrip s = [] \/ starts_other (rev (rstrip s)) = true.
Proof.
  unfold rstrip. rewrite rev_involutive.
  destruct (lstrip_shape (rev s)) as [H|H]; [left; now rewrite H | now right].
Qed.

Lemma rstrip_keeps_head (s : str) :
  starts_other s = true -> starts_other (rstrip s) = true.
Proof.
  destruct s as [|c t]; [discriminate|]. cbn [starts_other]. unfold other.
  intros Hc. apply negb_true_iff in Hc. unfold rstrip. cbn [rev].
  rewrite (lstrip_snoc _ c Hc), rev_app_distr. cbn. unfold other. now rewrite Hc.
Qed.

Lemma strip_shape (s : str) :
  strip s = []
  \/ (starts_other (strip s) = true /\ starts_other (rev (strip s)) = true).
Proof.
  unfold strip. destruct (lstrip_shape s) as [H|H].
  - left. rewrite H. reflexivity.
  - destruct (rstrip_shape (lstrip s)) as [Hr|Hr]; [now left|].
    right. split; [now apply rstrip_keeps_head | assumption].
Qed.

Lemma strip_fixed (s : str) :
  s = [] \/ (starts_other s = true /\ starts_other (rev s) = true) ->
  strip s = s.
Proof.
  intros [->|[H1 H2]]; [reflexivity|]. unfold strip, rstrip.
  now rewrite (lstrip_starts_other s H1), (lstrip_starts_other _ H2), rev_involutive.
Qed.

Lemma strip_strip (s : str) : strip (strip s) = strip s.
Proof. apply strip_fixed, strip_shape. Qed.

End Cleaned.

(** ** The spans read from a document *)

Section Read.
Context {U : UnicodeDB} {PS : PySorted}.

Lemma page_blocks_In (page_num : nat) (page : Page) (b : Block) :
  In b (page_blocks page_num page) ->
  exists span, b = block_of_span page_num span.
Proof.
  unfold page_blocks. intros H. apply in_flat_map in H.
  destruct H as (blk & _ & H). destruct (block_type blk =? 0)%Z; [|contradiction].
  apply in_flat_map in H. destruct H as (line & _ & H).
  apply in_map_iff in H. destruct H as (span & <- & _). now exists span.
Qed.

Lemma block_of_span_facts (page_num : nat) (span : RawSpan) :
  strip (text (block_of_span page_num span)) = text (block_of_span page_num span)
  /\ page (block_of_span page_num span) = (Z.of_nat page_num + 1)%Z
  /\ origin (block_of_span page_num span) = bbox_corner (block_of_span page_num span).
Proof.
  unfold block_of_span, bbox_corner.
  destruct (span_bbox span) as [[[x0 y0] x1] y1]. cbn.
  repeat split. apply strip_strip.
Qed.

Lemma document_blocks_In (doc : list Page) (page_num : nat) (b : Block) :
  In b (document_blocks page_num doc) ->
  strip (text b) = text b
  /\ (Z.of_nat page_num + 1 <= page b <= Z.of_nat page_num + Z.of_nat (List.length doc))%Z
  /\ origin b = bbox_corner b.
Proof.
  revert page_num. induction doc as [|p rest IH]; intros page_num H; [contradiction|].
  cbn [document_blocks] in H. apply in_app_iff in H. destruct H as [H|H].
  - apply page_blocks_In in H. destruct H as (span & ->).
    destruct (block_of_span_facts page_num span) as (H1 & H2 & H3).
    repeat split; try assumption; rewrite H2; cbn [List.length]; lia.
  - destruct (IH _ H) as (H1 & H2 & H3).
    repeat split; try assumption; cbn [List.length]; lia.
Qed.

Lemma StronglySorted_app (l1 l2 : list Z) :
  StronglySorted Z.le l1 -> StronglySorted Z.le l2 ->
  (forall x y, In x l1 -> In y l2 -> (x <= y)%Z) ->
  StronglySorted Z.le (l1 ++ l2).
Proof.
  intros H1 H2 H. induction l1 as [|a l1 IH]; [assumption|].
  inversion H1 as [|? ? Hs Ha]; subst. cbn. constructor.
  - apply IH; [assumption|]. intros x y Hx Hy. apply H; [now right | assumption].
  - apply Forall_app. split; [assumption|].
    apply Forall_forall. intros y Hy. apply H; [now left | assumption].
Qed.

Lemma StronglySorted_same (z : Z) (l : list Z) :
  (forall x, In x l -> x = z) -> StronglySorted Z.le l.
Proof.
  induction l as [|a l IH]; intros H; constructor.
  - apply IH. intros x Hx. apply H. now right.
  - apply Forall_forall. intros x Hx.
    rewrite (H a (or_introl eq_refl)), (H x (or_intror Hx)). lia.
Qed.

Lemma document_blocks_sorted (doc : list Page) (page_num : nat) :
  StronglySorted Z.le (map page (document_blocks page_num doc)).
Proof.
  revert page_num. induction doc as [|p rest IH]; intros page_num; [constructor|].
  cbn [document_blocks]. rewrite map_app. apply StronglySorted_app.
  - apply (StronglySorted_same (Z.of_nat page_num + 1)%Z).
    intros x Hx. apply in_map_iff in Hx. destruct Hx as (b & <- & Hb).
    apply page_blocks_In in Hb. destruct Hb as (span & ->).
    apply block_of_span_facts.
  - apply IH.
  - intros x y Hx Hy. apply in_map_iff in Hx, Hy.
    destruct Hx as (b & <- & Hb). destruct Hy as (b' & <- & Hb').
    apply page_blocks_In in Hb. destruct Hb as (span & ->).
    destruct (block_of_span_facts page_num span) as (_ & -> & _).
    apply document_blocks_In in Hb'. lia.
Qed.

(** X11. The spans of a document that opens: each has a stripped text, a
    page number between 1 and the number of pages, and for origin the
    first corner of its box; the spans come in the order of the pages. *)
Theorem extract_blocks_invariants {MU : PyMuPDF} (pdf_path : string) (doc : Document) :
  fitz_open pdf_path = Ok doc ->
  exists blocks,
    extract_blocks_with_metadata pdf_path = Ok blocks
    /\ Forall (fun b =>
                 strip (text b) = text b
                 /\ (1 <= page b <= Z.of_nat (List.length doc))%Z
                 /\ origin b = bbox_corner b)
         blocks
    /\ StronglySorted Z.le (map page blocks).
Proof.
  intros Hopen. unfold extract_blocks_with_metadata. rewrite Hopen. cbn [bind].
  exists (document_blocks 0 doc). split; [reflexivity|]. split.
  - apply Forall_forall. intros b Hb. apply document_blocks_In in Hb.
    destruct Hb as (H1 & H2 & H3). repeat split; try assumption; lia.
  - apply document_blocks_sorted.
Qed.

(** *** The title comes from the first page *)

Lemma detect_title_filter (xs ys : list Block) (l1 l2 : string) :
  filter (fun b => (page b =? 1)%Z && truthy (text b)) xs
  = filter (fun b => (page b =? 1)%Z && truthy (text b)) ys ->
  detect_title xs l1 = detect_title ys l2.
Proof. intros H. unfold detect_title. now rewrite H. Qed.

Lemma later_pages_filtered (doc : list Page) (page_num : nat) :
  filter (fun b => (page b =? 1)%Z && truthy (text b)) (document_blocks (S page_num) doc)
  = [].
Proof.
  destruct (filter _ (document_blocks (S page_num) doc)) as [|b l] eqn:E; [reflexivity|].
  exfalso.
  assert (Hb : In b (filter (fun b => (page b =? 1)%Z && truthy (text b))
                       (document_blocks (S page_num) doc))) by (rewrite E; now left).
  apply filter_In in Hb. destruct Hb as [Hb Hp].
  apply document_blocks_In in Hb. apply andb_true_iff in Hp.
  destruct Hp as [Hp _]. apply Z.eqb_eq in Hp. lia.
Qed.

(** X12. Two documents with the same first page get the same title,
    whatever their other pages and the language codes. *)
Theorem detect_title_first_page (first : Page) (rest rest' : list Page) (l1 l2 : string) :
  detect_title (document_blocks 0 (first :: rest)) l1
  = detect_title (document_blocks 0 (first :: rest')) l2.
Proof.
  apply detect_title_filter. cbn [document_blocks].
  now rewrite !filter_app, !later_pages_filtered.
Qed.

End Read.

(** ** The pages of the outline *)

Section OutlinePages.
Context {U : UnicodeDB} {SP : Spacy}.

Lemma extract_outline_emitted (blocks : list Block) (lang_code : string) (nlp : Language) :
  get_nlp lang_code = Ok nlp ->
  extract_outline blocks lang_code
  = Ok (flat_map (fun b => match emitted blocks lang_code b with
                           | Some e => [e]
                           | None => []
                           end) blocks).
Proof.
  intros Hnlp. unfold extract_outline.
  apply (extract_outline_fold lang_code blocks (emitted blocks lang_code) blocks []).
  intros b outline. apply (outline_step_spec lang_code nlp Hnlp).
Qed.

Lemma emitted_fields (blocks : list Block) (lang_code : string) (b : Block) (e : HeadingEntry) :
  emitted blocks lang_code b = Some e ->
  h_page e = (page b - 1)%Z /\ h_text e = text b.
Proof.
  unfold emitted. destruct (heading_level b _); [|discriminate].
  destruct (is_heading_candidate b lang_code) as [[|]|]; try discriminate.
  intros [= <-]. split; reflexivity.
Qed.

Section Emit.
Variable emit : Block -> option HeadingEntry.
Hypothesis emit_page : forall b e, emit b = Some e -> h_page e = (page b - 1)%Z.

Let one (b : Block) : list HeadingEntry :=
  match emit b with
  | Some e => [e]
  | None => []
  end.

Lemma emitted_In (blocks : list Block) (e : HeadingEntry) :
  In e (flat_map one blocks) ->
  exists b, In b blocks /\ h_page e = (page b - 1)%Z.
Proof.
  intros H. apply in_flat_map in H. destruct H as (b & Hb & He).
  unfold one in He. destruct (emit b) as [e'|] eqn:E; [|contradiction].
  destruct He as [<-|[]]. exists b. split; [assumption | now apply emit_page].
Qed.

Lemma emitted_sorted (blocks : list Block) :
  StronglySorted Z.le (map page blocks) ->
  StronglySorted Z.le (map h_page (flat_map one blocks)).
Proof.
  induction blocks as [|b bs IH]; intros H; [constructor|].
  cbn [map] in H. inversion H as [|? ? Hs Hb]; subst.
  cbn [flat_map]. unfold one at 1. destruct (emit b) as [e|] eqn:E; [|now apply IH].
  cbn [app map]. constructor; [now apply IH|].
  apply Forall_forall. intros z Hz. apply in_map_iff in Hz.
  destruct Hz as (e' & <- & He'). apply emitted_In in He'.
  destruct He' as (b' & Hb' & ->). rewrite (emit_page b e E).
  rewrite Forall_forall in Hb. specialize (Hb (page b') (in_map page bs b' Hb')). lia.
Qed.

Lemma emitted_length (blocks : list Block) :
  List.length (flat_map one blocks) <= List.length blocks.
Proof.
  induction blocks as [|b bs IH]; [reflexivity|].
  cbn [flat_map]. rewrite length_app. unfold one at 1.
  destruct (emit b); cbn [List.length]; lia.
Qed.

End Emit.

(** X13. The outline of a document, when the model of the language loads:
    every entry carries a page index from 0 up to the number of pages
    less one, the entries are in the order of the pages, and there are
    no more entries than spans. *)
Theorem outline_pages_in_document (doc : Document) (lang_code : string) (nlp : Language) :
  get_nlp lang_code = Ok nlp ->
  exists outline,
    extract_outline (document_blocks 0 doc) lang_code = Ok outline
    /\ Forall (fun e => (0 <= h_page e < Z.of_nat (List.length doc))%Z) outline
    /\ StronglySorted Z.le (map h_page outline)
    /\ List.length outline <= List.length (document_blocks 0 doc).
Proof.
  intros Hnlp. eexists. split; [apply (extract_outline_emitted _ _ nlp Hnlp)|].
  set (emit := emitted (document_blocks 0 doc) lang_code).
  assert (Hpage : forall b e, emit b = Some e -> h_page e = (page b - 1)%Z).
  { intros b e He. now apply (emitted_fields _ _ _ _ He). }
  split; [|split].
  - apply Forall_forall. intros e He.
    destruct (emitted_In emit Hpage _ e He) as (b & Hb & ->).
    apply document_blocks_In in Hb. lia.
  - apply (emitted_sorted emit Hpage). apply document_blocks_sorted.
  - apply emitted_length.
Qed.

End OutlinePages.

(** ** The shape of the title *)

(** X14. The title is a cleaned text: cleaning or stripping it again changes
    nothing, and no word occurs twice in it. *)
Theorem detect_title_shape {U : UnicodeDB} {L : UnicodeLaws U} {PS : PySorted}
    (blocks : list Block) (lang_code : string) :
  clean_repetitions (detect_title blocks lang_code) = detect_title blocks lang_code
  /\ strip (detect_title blocks lang_code) = detect_title blocks lang_code
  /\ NoDup (split (detect_title blocks lang_code)).
Proof.
  unfold detect_title.
  destruct (filter _ blocks) as [|b0 rest]; [repeat split; constructor|].
  set (joined := join [32%N] (map text _)).
  rewrite (clean_repetitions_words joined).
  set (ws := first_occurrences (split (re_sub stutter 0 joined))).
  assert (Ht : Forall token ws) by (apply Forall_first_occurrences, split_tokens).
  assert (Hn : Forall (fun w => no_stutter w = true) ws)
    by (apply Forall_first_occurrences, no_stutter_split, no_stutter_re_sub).
  assert (Hd : NoDup ws) by apply first_occurrences_NoDup.
  rewrite (strip_join_tokens ws Ht). split; [|split].
  - now apply clean_repetitions_fixed.
  - now apply strip_join_tokens.
  - now rewrite (split_join ws Ht).
Qed.

(** ** The sample of the language identifier *)

Lemma filter_fixed {A : Type} (f : A -> bool) (l : list A) :
  forallb f l = true -> filter f l = l.
Proof.
  induction l as [|x l IH]; [reflexivity|]. cbn. intros H.
  apply andb_true_iff in H. destruct H as [Hx Hl]. now rewrite Hx, IH.
Qed.

Lemma forallb_firstn {A : Type} (f : A -> bool) (n : nat) (l : list A) :
  forallb f l = true -> forallb f (firstn n l) = true.
Proof.
  revert n. induction l as [|x l IH]; intros [|n] H; try reflexivity.
  cbn in *. apply andb_true_iff in H. destruct H as [Hx Hl]. now rewrite Hx, IH.
Qed.

Lemma forallb_filter_same {A : Type} (f : A -> bool) (l : list A) :
  forallb f (filter f l) = true.
Proof.
  induction l as [|x l IH]; [reflexivity|]. cbn.
  destruct (f x) eqn:E; [cbn; now rewrite E|assumption].
Qed.

(** X15. The language is identified from the first 20 spans with a non-empty
    text: the spans after them, and the spans with an empty text, have
    no part in it. *)
Theorem detect_language_sample {LD : LangDetect} (blocks : list Block) :
  detect_language blocks
  = detect_language (firstn 20 (filter (fun b => truthy (text b)) blocks)).
Proof.
  unfold detect_language.
  set (ne := fun b : Block => truthy (text b)).
  rewrite (filter_fixed ne (firstn 20 (filter ne blocks)))
    by apply forallb_firstn, forallb_filter_same.
  rewrite <- !firstn_map, firstn_firstn. reflexivity.
Qed.

(** ** One document, and a directory of them *)

Section Batch.
Context {U : UnicodeDB} {SP : Spacy} {LD : LangDetect} {PS : PySorted}
        {MU : PyMuPDF} {FS : FileSystem}.

(** X16. A document that opens gets a result whenever the English model
    loads: the language is the one identified, or en when the
    identifier raises, and the title and the outline are those of the
    spans under that language. *)
Theorem document_result_returns (pdf_path : string) (doc : Document) (english : Language) :
  fitz_open pdf_path = Ok doc ->
  spacy_load "en_core_web_sm"%string = Ok english ->
  exists r,
    document_result pdf_path = Ok r
    /\ detect_language (document_blocks 0 doc) = Ok (language r)
    /\ title r = detect_title (document_blocks 0 doc) (language r)
    /\ extract_outline (document_blocks 0 doc) (language r) = Ok (outline r).
Proof.
  intros Hopen Hen. unfold document_result, extract_blocks_with_metadata.
  rewrite Hopen. cbn [bind].
  assert (Hlang : exists lang, detect_language (document_blocks 0 doc) = Ok lang).
  { unfold detect_language. destruct (detect _); eexists; reflexivity. }
  destruct Hlang as [lang Hlang]. rewrite Hlang. cbn [bind].
  assert (Hnlp : exists nlp, get_nlp lang = Ok nlp).
  { rewrite get_nlp_unfold.
    destruct (spacy_load (dict_get LANG_MODELS lang "en_core_web_sm"%string)) as [m|e].
    - now exists m.
    - now exists english. }
  destruct Hnlp as [nlp Hnlp].
  rewrite (extract_outline_emitted _ _ nlp Hnlp). cbn [bind].
  eexists. split; [reflexivity|]. cbn [language title outline].
  split; [reflexivity|]. split; [reflexivity|].
  apply (extract_outline_emitted _ _ nlp Hnlp).
Qed.

Lemma process_each_prefix (output_dir : string) (done : list string) (files : Files) :
  (forall f, In f done -> completes output_dir f) ->
  forall rest,
    process_each output_dir (done ++ rest) files
    = process_each output_dir rest (rev (written_for output_dir done) ++ files).
Proof.
  revert files. induction done as [|f done IH]; intros files Hok rest; [reflexivity|].
  destruct (Hok f (or_introl eq_refl)) as [r [Hr Hw]]. unfold output_path in Hw.
  cbn [app process_each]. unfold process_pdf. rewrite Hr, Hw.
  rewrite IH by (intros g Hg; apply Hok; now right).
  unfold written_for at 2. cbn [flat_map]. rewrite Hr. fold (written_for output_dir done).
  cbn [app rev]. rewrite <- app_assoc. reflexivity.
Qed.

(** X17. When the output directory can be made, and every PDF of the
    input directory gets a result that can be written, one file is
    written for each, named after its stem, in the order of the listing,
    and nothing raises. *)
Theorem process_pdfs_writes_all (input_dir output_dir : string) (files : Files) (u : unit) :
  mkdir output_dir = Ok u ->
  (forall f, In f (glob_pdf input_dir) -> completes output_dir f) ->
  process_pdfs input_dir output_dir files
  = (rev (written_for output_dir (glob_pdf input_dir)) ++ files, Ok tt)
  /\ map fst (written_for output_dir (glob_pdf input_dir))
     = map (output_path output_dir) (glob_pdf input_dir).
Proof.
  intros Hmk Hok. unfold process_pdfs. rewrite Hmk. split.
  - rewrite <- (app_nil_r (glob_pdf input_dir)) at 1.
    now rewrite (process_each_prefix output_dir _ files Hok []).
  - induction (glob_pdf input_dir) as [|f l IH]; [reflexivity|].
    destruct (Hok f (or_introl eq_refl)) as [r [Hr _]].
    unfold written_for. cbn [flat_map map]. rewrite Hr. cbn [app map fst]. f_equal.
    apply IH. intros g Hg. apply Hok. now right.
Qed.

(** X18. The first PDF that raises, in its analysis or when its result is
    written, stops the batch: the files of the PDFs before it are
    written, none is written in full for it or for the PDFs after it,
    and its exception reaches the caller. *)
Theorem process_pdfs_stops_at_failure (input_dir output_dir : string) (files : Files)
    (u : unit) (done : list string) (bad : string) (rest : list string) (e : exn) :
  mkdir output_dir = Ok u ->
  glob_pdf input_dir = done ++ bad :: rest ->
  (forall f, In f done -> completes output_dir f) ->
  fails_with output_dir bad e ->
  process_pdfs input_dir output_dir files
  = (rev (written_for output_dir done) ++ files, Raise e).
Proof.
  intros Hmk Hglob Hok Hbad. unfold process_pdfs. rewrite Hmk, Hglob.
  rewrite (process_each_prefix output_dir done files Hok).
  cbn [process_each]. unfold process_pdf.
  destruct Hbad as [Hbad|[r [Hr Hw]]].
  - now rewrite Hbad.
  - unfold output_path in Hw. now rewrite Hr, Hw.
Qed.

End Batch.

(** ** The cache of models *)

Section LruCache.
Context {V : Type}.

Lemma cache_lookup_remove (cache : list (string * V)) (k : string) :
  cache_lookup (cache_remove cache k) k = None.
Proof.
  induction cache as [|[k' v] cache IH]; [reflexivity|].
  cbn [cache_remove filter fst]. destruct (String.eqb k k') eqn:E; cbn [negb].
  - exact IH.
  - cbn [cache_lookup]. now rewrite E.
Qed.

Lemma cache_remove_absent (cache : list (string * V)) (k : string) :
  cache_lookup cache k = None -> cache_remove cache k = cache.
Proof.
  induction cache as [|[k' v] cache IH]; [reflexivity|].
  cbn [cache_lookup cache_remove filter fst].
  destruct (String.eqb k k'); [discriminate|]. intros H. cbn [negb]. f_equal. now apply IH.
Qed.

Lemma cache_lookup_firstn (n : nat) (cache : list (string * V)) (k : string) :
  cache_lookup cache k = None -> cache_lookup (firstn n cache) k = None.
Proof.
  revert n. induction cache as [|[k' v] cache IH]; intros [|n] H; try reflexivity.
  cbn [cache_lookup firstn] in *. destruct (String.eqb k k'); [discriminate | now apply IH].
Qed.

(** X19. A code that has just been resolved is resolved again from the
    cache: the next call for it returns the same value without calling
    the function, whatever the function would do, and leaves the cache
    as it is. *)
Theorem lru_cache_hit_after_call (maxsize : nat) (f f' : string -> result V)
    (cache : list (string * V)) (k : string) (v : V) :
  1 <= maxsize ->
  fst (lru_cache maxsize f cache k) = Ok v ->
  lru_cache maxsize f' (snd (lru_cache maxsize f cache k)) k
  = (Ok v, snd (lru_cache maxsize f cache k)).
Proof.
  intros Hmax. unfold lru_cache at 1 3 4.
  destruct (cache_lookup cache k) as [v0|] eqn:Hl.
  - cbn [fst snd]. intros [= ->]. unfold lru_cache. cbn [cache_lookup].
    rewrite String.eqb_refl. cbn [cache_remove filter fst].
    rewrite String.eqb_refl. cbn [negb]. fold (cache_remove (cache_remove cache k) k).
    now rewrite (cache_remove_absent _ k (cache_lookup_remove cache k)).
  - destruct (f k) as [v0|e]; cbn [fst snd]; [|discriminate]. intros [= ->].
    destruct maxsize as [|m]; [lia|]. cbn [firstn]. unfold lru_cache.
    cbn [cache_lookup]. rewrite String.eqb_refl. cbn [cache_remove filter fst].
    rewrite String.eqb_refl. cbn [negb]. fold (cache_remove (firstn m cache) k).
    now rewrite (cache_remove_absent _ k (cache_lookup_firstn m cache k Hl)).
Qed.

Lemma cache_keys_remove (cache : list (string * V)) (k : string) :
  NoDup (map fst cache) ->
  NoDup (map fst (cache_remove cache k)) /\ ~ In k (map fst (cache_remove cache k)).
Proof.
  induction cache as [|[k' v] cache IH]; intros H; [split; [constructor | intros []]|].
  cbn [map fst] in H. inversion H as [|? ? Hk Hd]; subst.
  destruct (IH Hd) as [IH1 IH2].
  cbn [cache_remove filter fst]. destruct (String.eqb_spec k k') as [->|Hne]; cbn [negb].
  - split; assumption.
  - cbn [map fst]. split.
    + constructor; [|assumption]. intros Hin. apply Hk.
      apply in_map_iff in Hin. destruct Hin as (kv & <- & Hkv).
      apply filter_In in Hkv. apply in_map. exact (proj1 Hkv).
    + intros [Heq|Hin]; [now apply Hne | now apply IH2].
Qed.

Lemma cache_lookup_None_keys (cache : list (string * V)) (k : string) :
  cache_lookup cache k = None -> ~ In k (map fst cache).
Proof.
  induction cache as [|[k' v] cache IH]; [intros _ []|].
  cbn [cache_lookup map fst]. destruct (String.eqb_spec k k'); [discriminate|].
  intros H [Heq|Hin]; [now subst | now apply IH].
Qed.

Lemma NoDup_firstn {A : Type} (n : nat) (l : list A) : NoDup l -> NoDup (firstn n l).
Proof.
  intros H. rewrite <- (firstn_skipn n l) in H. now apply NoDup_app_remove_r in H.
Qed.

(** One call keeps the cache within its size and its codes distinct. *)
Lemma lru_cache_step_bounded (maxsize : nat) (f : string -> result V)
    (cache : list (string * V)) (k : string) :
  List.length cache <= maxsize ->
  NoDup (map fst cache) ->
  List.length (snd (lru_cache maxsize f cache k)) <= maxsize
  /\ NoDup (map fst (snd (lru_cache maxsize f cache k))).
Proof.
  intros Hlen Hnd. unfold lru_cache.
  destruct (cache_lookup cache k) as [v|] eqn:Hl.
  - cbn [snd]. destruct (cache_keys_remove cache k Hnd) as [H1 H2]. split.
    + cbn [List.length].
      assert (Hin : exists v', In (k, v') cache).
      { clear - Hl. induction cache as [|[k' v'] cache IH]; [discriminate|].
        cbn [cache_lookup] in Hl. destruct (String.eqb_spec k k') as [->|].
        - exists v'. now left.
        - destruct (IH Hl) as [w Hw]. exists w. now right. }
      destruct Hin as [v' Hin].
      assert (List.length (cache_remove cache k) < List.length cache); [|lia].
      clear - Hin. induction cache as [|[k' w] cache IH]; [contradiction|].
      cbn [cache_remove filter fst]. destruct (String.eqb_spec k k') as [->|Hne]; cbn [negb].
      * pose proof (filter_length_le (fun kv => negb (String.eqb k' (fst kv))) cache).
        cbn [List.length]. lia.
      * destruct Hin as [[= <- _]|Hin]; [contradiction|].
        specialize (IH Hin). unfold cache_remove in IH. cbn [List.length]. lia.
    + cbn [map fst]. constructor; assumption.
  - destruct (f k) as [v|e]; cbn [snd]; [|split; assumption]. split.
    + rewrite length_firstn. lia.
    + rewrite <- firstn_map. apply NoDup_firstn. cbn [map fst].
      constructor; [now apply cache_lookup_None_keys | assumption].
Qed.

End LruCache.

Section ModelCache.
Context {U : UnicodeDB} {SP : Spacy}.

Lemma cache_after_invariant (codes : list string) (cache : list (string * Language)) :
  List.length cache <= 3 -> NoDup (map fst cache) -> coherent cache ->
  List.length (cache_after cache codes) <= 3
  /\ NoDup (map fst (cache_after cache codes))
  /\ coherent (cache_after cache codes)
  /\ resolve_all cache codes = map get_nlp codes.
Proof.
  revert cache. induction codes as [|code codes IH]; intros cache Hlen Hnd Hco.
  - repeat split; assumption.
  - cbn [cache_after resolve_all map].
    destruct (lru_cache_step_bounded 3 get_nlp cache code Hlen Hnd) as [Hlen' Hnd'].
    pose proof (cached_get_nlp_coherent cache code Hco) as Hco'.
    pose proof (cached_get_nlp_result cache code Hco) as Hres.
    fold (cached_get_nlp cache code) in Hlen', Hnd'.
    destruct (IH _ Hlen' Hnd' Hco') as (H1 & H2 & H3 & H4).
    destruct (cached_get_nlp cache code) as [r cache'] eqn:E. cbn [fst snd] in *.
    repeat split; try assumption. now rewrite Hres, H4.
Qed.

(** X20. Through the cache, started empty: every call returns what the body
    of [get_nlp] returns for its code, and after any series of calls the
    cache holds at most 3 models, one per code, each the model that
    [get_nlp] returns for the code. *)
Theorem get_nlp_cache_sound (codes : list string) :
  resolve_all [] codes = map get_nlp codes
  /\ List.length (cache_after [] codes) <= 3
  /\ NoDup (map fst (cache_after [] codes))
  /\ coherent (cache_after [] codes).
Proof.
  destruct (cache_after_invariant codes []) as (H1 & H2 & H3 & H4);
    [cbn; lia | constructor | constructor |].
  repeat split; assumption.
Qed.

End ModelCache.

(** ** The end of a sentence *)

Section SentenceEnd.
Context {U : UnicodeDB} {L : UnicodeLaws U}.

Lemma newline_is_space : ISSPACE 10%N = true.
Proof.
  destruct (basic_latin_block 10%N eq_refl) as (_ & _ & _ & _ & H & _).
  rewrite H. reflexivity.
Qed.

Lemma search_class_dollar_last (cls : char -> bool) (s : str) :
  s = [] \/ starts_other (rev s) = true ->
  search_class_dollar cls s
  = match last_char s with
    | Some c => cls c
    | None => false
    end.
Proof.
  unfold last_char. induction s as [|c t IH]; intros H; [reflexivity|].
  destruct H as [H|H]; [discriminate|].
  cbn [search_class_dollar]. destruct t as [|d t'].
  - cbn. now rewrite orb_false_r, andb_true_r.
  - assert (Ht : d :: t' = [] \/ starts_other (rev (d :: t')) = true).
    { right. cbn [rev] in H |- *. rewrite starts_other_app in H; [assumption|].
      destruct (rev t'); discriminate. }
    rewrite (IH Ht).
    assert (Hd : at_dollar (d :: t') = false).
    { destruct t' as [|e t'']; [|reflexivity]. cbn in Ht |- *.
      destruct Ht as [Ht|Ht]; [discriminate|]. unfold other in Ht.
      apply negb_true_iff in Ht. destruct (N.eqb_spec d 10) as [->|]; [|reflexivity].
      now rewrite newline_is_space in Ht. }
    rewrite Hd, andb_false_r. cbn [orb].
    change (rev (c :: d :: t')) with (rev (d :: t') ++ [c]).
    destruct (rev (d :: t')) as [|x r] eqn:E.
    + apply (f_equal (@rev char)) in E. rewrite rev_involutive in E. discriminate.
    + reflexivity.
Qed.

Lemma strip_ends (s : str) : strip s = [] \/ starts_other (rev (strip s)) = true.
Proof. destruct (strip_shape s) as [H|[_ H]]; [now left | now right]. Qed.

(** X21. A text is a full sentence exactly when the model finds in it a
    sentence of more than 2 tokens that are not white space, whose text,
    stripped, ends with one of . ! ? or their full-width forms: with the
    text stripped, the [$] of the pattern stands for the very end. *)
Theorem is_full_sentence_last_char {SP : Spacy} (text : str) (lang_code : string)
    (nlp : Language) :
  get_nlp lang_code = Ok nlp ->
  exists full,
    is_full_sentence text lang_code = Ok full
    /\ (full = true <->
        exists sent c,
          In sent (doc_sents nlp text)
          /\ 2 < List.length (filter (fun t => negb (is_space t)) (sent_tokens sent))
          /\ last_char (strip (sent_text sent)) = Some c
          /\ In c [46; 33; 63; 12290; 65281; 65311]%N).
Proof.
  intros Hnlp. unfold is_full_sentence. rewrite Hnlp. cbn [bind].
  eexists. split; [reflexivity|]. rewrite existsb_exists. split.
  - intros (sent & Hin & H). apply andb_true_iff in H. destruct H as [Hn Hs].
    rewrite (search_class_dollar_last _ _ (strip_ends _)) in Hs.
    destruct (last_char (strip (sent_text sent))) as [c|] eqn:E; [|discriminate].
    exists sent, c. repeat split; try assumption.
    + now apply Nat.ltb_lt in Hn.
    + unfold sentence_end in Hs. now apply existsb_eqb_In.
  - intros (sent & c & Hin & Hn & Hl & Hc). exists sent. split; [assumption|].
    apply andb_true_iff. split; [now apply Nat.ltb_lt|].
    rewrite (search_class_dollar_last _ _ (strip_ends _)), Hl.
    unfold sentence_end. now apply existsb_eqb_In.
Qed.

End SentenceEnd.

Import Re Numbering.

(** ** Matching *)

Lemma nullable_spec (r : regex) : nullable r = true <-> lang r [].
Proof.
  split.
  - induction r as [| |p|r1 IH1 r2 IH2|r1 IH1 r2 IH2|r1 IH1]; cbn; intros H;
      try discriminate.
    + apply lang_eps.
    + apply andb_true_iff in H. destruct H as [H1 H2].
      change (@nil char) with (@nil char ++ []). apply lang_seq; auto.
    + apply orb_true_iff in H. destruct H as [H|H];
        [apply lang_alt_l | apply lang_alt_r]; auto.
    + apply lang_star_nil.
  - intros H. remember [] as s eqn:Hs. induction H; cbn; try reflexivity; try discriminate.
    + apply app_eq_nil in Hs. destruct Hs as [-> ->].
      now rewrite IHlang1, IHlang2.
    + now rewrite IHlang.
    + rewrite IHlang; [apply orb_true_r | assumption].
Qed.

Lemma lang_seq_inv (r1 r2 : regex) (w : str) :
  lang (Seq r1 r2) w -> exists a b, w = a ++ b /\ lang r1 a /\ lang r2 b.
Proof. intros H. inversion H; subst. eauto. Qed.

Lemma lang_alt_inv (r1 r2 : regex) (w : str) :
  lang (Alt r1 r2) w -> lang r1 w \/ lang r2 w.
Proof. intros H. inversion H; subst; auto. Qed.

Lemma lang_class_inv (p : char -> bool) (w : str) :
  lang (Class p) w -> exists c, w = [c] /\ p c = true.
Proof. intros H. inversion H; subst. eauto. Qed.

Lemma lang_eps_inv (w : str) : lang Eps w -> w = [].
Proof. intros H. now inversion H. Qed.

Lemma lang_empty_inv (w : str) : ~ lang Empty w.
Proof. intros H. inversion H. Qed.

Lemma lang_cons_seq (r1 r2 : regex) (c : char) (a b : str) :
  lang r1 (c :: a) -> lang r2 b -> lang (Seq r1 r2) (c :: a ++ b).
Proof. intros H1 H2. change (c :: a ++ b) with ((c :: a) ++ b). now constructor. Qed.

Lemma deriv_sound (c : char) (r : regex) (w : str) :
  lang (deriv c r) w -> lang r (c :: w).
Proof.
  revert w. induction r as [| |p|r1 IH1 r2 IH2|r1 IH1 r2 IH2|r1 IH1];
    intros w H; cbn [deriv] in H.
  - now apply lang_empty_inv in H.
  - now apply lang_empty_inv in H.
  - destruct (p c) eqn:E; [|now apply lang_empty_inv in H].
    apply lang_eps_inv in H. subst w. now constructor.
  - destruct (nullable r1) eqn:N.
    + apply lang_alt_inv in H. destruct H as [H|H].
      * apply lang_seq_inv in H. destruct H as (a & b & -> & Ha & Hb).
        apply lang_cons_seq; auto.
      * change (c :: w) with ([] ++ c :: w).
        apply lang_seq; [now apply nullable_spec | auto].
    + apply lang_seq_inv in H. destruct H as (a & b & -> & Ha & Hb).
      apply lang_cons_seq; auto.
  - apply lang_alt_inv in H. destruct H as [H|H];
      [apply lang_alt_l | apply lang_alt_r]; auto.
  - apply lang_seq_inv in H. destruct H as (a & b & -> & Ha & Hb).
    change (c :: a ++ b) with ((c :: a) ++ b). apply lang_star_cons; auto.
Qed.

Lemma deriv_complete (c : char) (r : regex) (s : str) :
  lang r s -> forall w, s = c :: w -> lang (deriv c r) w.
Proof.
  intros H.
  induction H as [ | p a Hp | r1 r2 u v H1 IH1 H2 IH2 | r1 r2 u H1 IH1
                 | r1 r2 u H2 IH2 | r | r u v H1 IH1 H2 IH2 ];
    intros w Hs; cbn [deriv]; try discriminate.
  - injection Hs as -> <-. rewrite Hp. constructor.
  - destruct u as [|a u].
    + cbn [app] in Hs. apply nullable_spec in H1. rewrite H1.
      apply lang_alt_r. now apply IH2.
    + cbn [app] in Hs. injection Hs as -> <-. specialize (IH1 u eq_refl).
      destruct (nullable r1); [apply lang_alt_l|]; now constructor.
  - apply lang_alt_l. auto.
  - apply lang_alt_r. auto.
  - destruct u as [|a u].
    + cbn [app] in Hs. now apply IH2.
    + cbn [app] in Hs. injection Hs as -> <-. constructor; auto.
Qed.

(** [re_match] finds a prefix in the language of the pattern, if there
    is one. *)
Lemma re_match_spec (s : str) (r : regex) :
  re_match r s = true <-> exists p q, s = p ++ q /\ lang r p.
Proof.
  revert r. induction s as [|c t IH]; intros r; cbn [re_match].
  - rewrite orb_false_r, nullable_spec. split.
    + intros H. now exists [], [].
    + intros (p & q & Hs & H). symmetry in Hs. apply app_eq_nil in Hs.
      destruct Hs as [-> _]. assumption.
  - rewrite orb_true_iff, nullable_spec, IH. split.
    + intros [H|(p & q & -> & H)].
      * now exists [], (c :: t).
      * exists (c :: p), q. split; [reflexivity | now apply deriv_sound].
    + intros (p & q & Hs & H). destruct p as [|a p]; [now left|].
      injection Hs as <- ->. right. exists p, q. split; [reflexivity|].
      now apply (deriv_complete c r (c :: p)).
Qed.

Lemma lang_star_class (p : char -> bool) (w : str) :
  lang (Star (Class p)) w <-> forallb p w = true.
Proof.
  split.
  - intros H. remember (Star (Class p)) as r eqn:Hr.
    induction H as [ | | | | | r | r u v H1 IH1 H2 IH2 ]; try discriminate.
    + reflexivity.
    + injection Hr as ->. apply lang_class_inv in H1. destruct H1 as (c & -> & Hc).
      cbn. now rewrite Hc, IH2.
  - induction w as [|c w IH]; intros H; [constructor|].
    cbn in H. apply andb_true_iff in H. destruct H as [Hc Hw].
    change (c :: w) with ([c] ++ w). constructor; [now constructor | auto].
Qed.

Lemma lang_plus_class (p : char -> bool) (w : str) :
  lang (Plus (Class p)) w <-> w <> [] /\ forallb p w = true.
Proof.
  unfold Plus. split.
  - intros H. apply lang_seq_inv in H. destruct H as (a & b & -> & Ha & Hb).
    apply lang_class_inv in Ha. destruct Ha as (c & -> & Hc).
    apply lang_star_class in Hb. split; [discriminate|]. cbn. now rewrite Hc, Hb.
  - intros [Hne H]. destruct w as [|c w]; [contradiction|].
    cbn in H. apply andb_true_iff in H. destruct H as [Hc Hw].
    change (c :: w) with ([c] ++ w). constructor; [now constructor|].
    now apply lang_star_class.
Qed.

(** ** Numbering *)

Section NumberingFacts.
Context {U : UnicodeDB} {UD : UnicodeDigits}.

Lemma dotted_number_prefix (s : str) :
  re_match
    (Seq (Plus (Class ISDECIMAL))
       (Star (Seq (Class (is_char 46%N)) (Plus (Class ISDECIMAL))))) s = true
  <-> exists c rest, s = c :: rest /\ ISDECIMAL c = true.
Proof.
  rewrite re_match_spec. split.
  - intros (p & q & -> & H). apply lang_seq_inv in H.
    destruct H as (a & b & -> & Ha & _). apply lang_plus_class in Ha.
    destruct Ha as [Hne Ha]. destruct a as [|c a]; [contradiction|].
    cbn in Ha. apply andb_true_iff in Ha. exists c, ((a ++ b) ++ q).
    split; [reflexivity | exact (proj1 Ha)].
  - intros (c & rest & -> & Hc). exists [c], rest. split; [reflexivity|].
    change [c] with ([c] ++ []). constructor; [|constructor].
    apply lang_plus_class. split; [discriminate|]. cbn. now rewrite Hc.
Qed.

Lemma roman_prefix (s : str) :
  re_match (Seq (Plus (Class roman)) (Class (is_char 46%N))) s = true
  <-> exists romans rest,
        s = romans ++ 46%N :: rest /\ romans <> [] /\ forallb roman romans = true.
Proof.
  rewrite re_match_spec. split.
  - intros (p & q & -> & H). apply lang_seq_inv in H.
    destruct H as (a & b & -> & Ha & Hb). apply lang_plus_class in Ha.
    apply lang_class_inv in Hb. destruct Hb as (d & -> & Hd).
    unfold is_char in Hd. apply N.eqb_eq in Hd. subst d.
    exists a, q. split; [now rewrite <- app_assoc | assumption].
  - intros (romans & rest & -> & Hne & Hr). exists (romans ++ [46%N]), rest.
    split; [now rewrite <- app_assoc|]. constructor.
    + apply lang_plus_class. now split.
    + constructor. apply N.eqb_refl.
Qed.

Lemma letter_paren_prefix (s : str) :
  re_match (Seq (Class (in_range 65 90)) (Class (is_char 41%N))) s = true
  <-> exists c rest, s = c :: 41%N :: rest /\ in_range 65 90 c = true.
Proof.
  rewrite re_match_spec. split.
  - intros (p & q & -> & H). apply lang_seq_inv in H.
    destruct H as (a & b & -> & Ha & Hb).
    apply lang_class_inv in Ha. destruct Ha as (c & -> & Hc).
    apply lang_class_inv in Hb. destruct Hb as (d & -> & Hd).
    unfold is_char in Hd. apply N.eqb_eq in Hd. subst d.
    exists c, q. split; [reflexivity | assumption].
  - intros (c & rest & -> & Hc). exists [c; 41%N], rest. split; [reflexivity|].
    change [c; 41%N] with ([c] ++ [41%N]). constructor; constructor;
      [assumption | apply N.eqb_refl].
Qed.

(** X22. [starts_with_numbering] looks at the text stripped, and accepts it
    in three cases only: it starts with a decimal digit (whatever
    follows); it starts with one or more of the letters I V X L C D M
    followed by a full stop; it starts with a capital letter from A to
    Z followed by a closing parenthesis. White space around the text
    does not matter. *)
Theorem starts_with_numbering_cases (text : str) :
  (starts_with_numbering text = true <->
     (exists c rest, strip text = c :: rest /\ ISDECIMAL c = true)
     \/ (exists romans rest,
           strip text = romans ++ 46%N :: rest
           /\ romans <> [] /\ forallb roman romans = true)
     \/ (exists c rest, strip text = c :: 41%N :: rest /\ in_range 65 90 c = true))
  /\ starts_with_numbering (strip text) = starts_with_numbering text.
Proof.
  split.
  - unfold starts_with_numbering, numbering_patterns. cbn [existsb].
    rewrite orb_false_r, !orb_true_iff.
    rewrite dotted_number_prefix, roman_prefix, letter_paren_prefix. tauto.
  - unfold starts_with_numbering. now rewrite strip_strip.
Qed.

End NumberingFacts.

Example starts_with_numbering_examples :
  @starts_with_numbering basic_latin basic_latin_digits (u "1.2.3 Overview") = true
  /\ @starts_with_numbering basic_latin basic_latin_digits (u "Overview") = false
  /\ @starts_with_numbering basic_latin basic_latin_digits (u "  IV. Results") = true
  /\ @starts_with_numbering basic_latin basic_latin_digits (u "MIX. it") = true
  /\ @starts_with_numbering basic_latin basic_latin_digits (u "B) second") = true
  /\ @starts_with_numbering basic_latin basic_latin_digits (u "2024 budget") = true.
Proof. repeat split. Qed.

(** ** The loop of the outline and the conditions of a heading *)

Section HeadingConditions.
Context {U : UnicodeDB} {L : UnicodeLaws U} {SP : Spacy}.
Variables (lang_code : string) (nlp : Language).
Hypothesis Hnlp : get_nlp lang_code = Ok nlp.

Lemma heading_level_table (blocks : list Block) (b : Block) :
  heading_level b (compute_font_stats blocks) = level_of_size (size b).
Proof.
  unfold heading_level, level_of_size, within, font_table.
  cbn [compute_font_stats find snd fst].
  destruct (PrimFloat.ltb (PrimFloat.abs (size b - 20.04)) 0.1); [reflexivity|].
  destruct (PrimFloat.ltb (PrimFloat.abs (size b - 15.96)) 0.1); [reflexivity|].
  destruct (PrimFloat.ltb (PrimFloat.abs (size b - 12.0)) 0.1); reflexivity.
Qed.

Lemma letters_alphabetic (text : str) : letters text = alphabetic text.
Proof.
  unfold letters, alphabetic. apply filter_ext. intros c.
  unfold isalpha. cbn. now rewrite andb_true_r.
Qed.

Lemma uppers_alphabetic (text : str) : uppers text = filter ISUPPER (alphabetic text).
Proof. unfold uppers. now rewrite letters_alphabetic. Qed.

Lemma is_all_caps_all_caps (text : str) :
  is_all_caps text lang_code = all_caps text lang_code.
Proof.
  unfold is_all_caps, all_caps, caseless.
  destruct (String.eqb lang_code "ja"); [reflexivity|]. cbn [negb andb].
  fold (letters text). rewrite letters_alphabetic.
  destruct (alphabetic text); reflexivity.
Qed.

Lemma existsb_pointwise {A : Type} (f g : A -> bool) (l : list A) :
  (forall a, f a = g a) -> existsb f l = existsb g l.
Proof.
  intros H. induction l as [|a l IH]; [reflexivity|]. cbn. now rewrite H, IH.
Qed.

Lemma is_full_sentence_full (text : str) :
  is_full_sentence text lang_code = Ok (full_sentence nlp text).
Proof.
  unfold is_full_sentence, full_sentence. rewrite Hnlp. cbn [bind]. f_equal.
  apply existsb_pointwise. intros sent. f_equal.
  rewrite (search_class_dollar_last _ _ (strip_ends (sent_text sent))).
  unfold ends_with_terminator, last_char.
  destruct (rev (strip (sent_text sent))); reflexivity.
Qed.

Lemma ratio_mostly_uppercase (text : str) :
  List.length text <= 80 ->
  PrimFloat.ltb 0.5 (uppercase_ratio text lang_code) = mostly_uppercase text lang_code.
Proof.
  intros Hlen. unfold mostly_uppercase, caseless.
  destruct (String.eqb lang_code "ja") eqn:Hja.
  - unfold uppercase_ratio. rewrite Hja. reflexivity.
  - cbn [negb andb]. rewrite <- uppers_alphabetic, <- letters_alphabetic.
    pose proof (uppers_le_letters text) as [Hle Hle'].
    destruct (letters text) as [|c t] eqn:Hl.
    + unfold uppercase_ratio. rewrite Hja. fold (letters text). rewrite Hl.
      cbn [truthy negb]. cbn [List.length] in Hle.
      assert (Hu : List.length (uppers text) = 0) by lia. rewrite Hu. reflexivity.
    + rewrite (uppercase_ratio_unfold text lang_code Hja) by (rewrite Hl; discriminate).
      rewrite Hl. apply ratio_small; [|exact Hle].
      cbn [List.length] in *. lia.
Qed.

(** What the code tests of a span is the six conditions, read with
    the title case of the code. *)
Lemma emitted_qualifies (blocks : list Block) (b : Block) :
  strip (text b) = text b ->
  emitted blocks lang_code b
  = if qualifies_with is_title_case nlp lang_code b
    then option_map (entry_of b) (level_of_size (size b))
    else None.
Proof.
  intros Hstrip. unfold emitted, qualifies_with.
  rewrite heading_level_table, Hstrip, is_heading_candidate_tests.
  unfold passes_first_tests, starts_with_bullet_glyph, case_signal.
  rewrite is_full_sentence_full, is_all_caps_all_caps. cbn [bind].
  change bullet_glyphs with bullets.
  change (short (text b) lang_code 14 80) with (is_short (text b) 14 80 lang_code).
  destruct (text b) as [|c t] eqn:Ht.
  - cbn [andb]. now destruct (level_of_size (size b)).
  - cbn [andb]. destruct (existsb (N.eqb c) bullets); cbn [negb andb].
    { now destruct (level_of_size (size b)). }
    destruct (is_short (c :: t) 14 80 lang_code) eqn:Hshort; cbn [andb].
    2:{ now destruct (level_of_size (size b)). }
    rewrite (ratio_mostly_uppercase (c :: t)).
    + destruct (negb (full_sentence nlp (c :: t))
                && (all_caps (c :: t) lang_code || is_title_case (c :: t) lang_code
                    || mostly_uppercase (c :: t) lang_code));
        cbn [andb]; now destruct (level_of_size (size b)).
    + unfold is_short in Hshort. unfold len in Hshort.
      destruct (String.eqb lang_code "ja").
      * now apply Nat.leb_le in Hshort.
      * apply andb_true_iff in Hshort. destruct Hshort as [H _]. now apply Nat.leb_le in H.
Qed.

(** On spans with a trimmed text, when the model loads: the outline of
    the code is the outline of the six conditions read with the title
    case of the code. The two differ from the claim in the reading of
    title case only. *)
Lemma extract_outline_conditions (blocks : list Block) :
  Forall (fun b => strip (text b) = text b) blocks ->
  extract_outline blocks lang_code = Ok (outline_with is_title_case nlp lang_code blocks).
Proof.
  intros Hs. rewrite (extract_outline_emitted blocks lang_code nlp Hnlp). f_equal.
  unfold outline_with.
  assert (Hall : forall l, Forall (fun b => strip (text b) = text b) l ->
            flat_map (fun b => match emitted blocks lang_code b with
                               | Some e => [e]
                               | None => []
                               end) l
            = flat_map (fun b =>
                          if qualifies_with is_title_case nlp lang_code b then
                            match level_of_size (size b) with
                            | Some lv => [entry_of b lv]
                            | None => []
                            end
                          else []) l).
  { intros l Hl. induction Hl as [|b l Hb Hl IH]; [reflexivity|].
    cbn [flat_map]. rewrite IH, (emitted_qualifies blocks b Hb).
    destruct (qualifies_with is_title_case nlp lang_code b); [|reflexivity].
    now destruct (level_of_size (size b)). }
  now apply Hall.
Qed.

End HeadingConditions.

(** ** The properties on the sample document *)

Import Fixtures Samples.

Lemma extract_outline_without_model_witness :
  @extract_outline basic_latin no_models
    [ span (u "Introduction") 20.04 1 50; span (u "Body text") 11 1 80 ] "en"
  = Raise OSError.
Proof.
  rewrite (@extract_outline_without_model basic_latin no_models _ "en" OSError eq_refl).
  reflexivity.
Defined.

Lemma extract_outline_japanese_empty_witness :
  @extract_outline basic_latin (@whitespace_pipeline basic_latin)
    [ span (u "INTRODUCTION") 20.04 1 50; span (u "Heading Two") 15.96 1 80 ] "ja"
  = Ok [].
Proof.
  apply (@extract_outline_japanese_empty basic_latin (@whitespace_pipeline basic_latin) _ tt). reflexivity.
Defined.

Lemma uppercase_ratio_majority_witness :
  (PrimFloat.ltb 0.5 (@uppercase_ratio basic_latin (u "ABc d") "en") = true
   <-> List.length (@letters basic_latin (u "ABc d")) < 2 * List.length (@uppers basic_latin (u "ABc d")))
  /\ PrimFloat.leb 0 (@uppercase_ratio basic_latin (u "ABc d") "en") = true
  /\ PrimFloat.leb (@uppercase_ratio basic_latin (u "ABc d") "en") 1 = true.
Proof.
  apply (@uppercase_ratio_majority basic_latin (u "ABc d") "en"); [reflexivity | vm_compute; lia].
Defined.

Lemma is_title_case_requires_witness :
  filter (@isalpha basic_latin) (@split basic_latin (u "Am Here")) <> [].
Proof.
  apply (@is_title_case_requires basic_latin basic_latin_laws (u "Am Here") "en"). reflexivity.
Defined.

Lemma is_title_case_not_all_caps_witness :
  @is_all_caps basic_latin (u "Am Here") "en" = false.
Proof.
  apply (@is_title_case_not_all_caps basic_latin basic_latin_laws (u "Am Here") "en"). reflexivity.
Defined.

Lemma heading_candidate_has_uppercase_witness :
  List.length (text (span (u "Introduction") 20.04 1 50)) <= 80
  /\ exists c, In c (text (span (u "Introduction") 20.04 1 50))
               /\ @ISALPHA basic_latin c = true /\ @ISUPPER basic_latin c = true.
Proof.
  apply (@heading_candidate_has_uppercase basic_latin (@whitespace_pipeline basic_latin) (span (u "Introduction") 20.04 1 50) "en").
  reflexivity.
Defined.

Lemma clean_repetitions_shape_witness :
  NoDup (@split basic_latin (@clean_repetitions basic_latin (u " Draft  Draaaft Draft ")))
  /\ Forall (fun w => @no_stutter basic_latin w = true)
       (@split basic_latin (@clean_repetitions basic_latin (u " Draft  Draaaft Draft ")))
  /\ join [32%N] (@split basic_latin (@clean_repetitions basic_latin (u " Draft  Draaaft Draft ")))
     = @clean_repetitions basic_latin (u " Draft  Draaaft Draft ")
  /\ @strip basic_latin (@clean_repetitions basic_latin (u " Draft  Draaaft Draft "))
     = @clean_repetitions basic_latin (u " Draft  Draaaft Draft ").
Proof.
  apply (@clean_repetitions_shape basic_latin basic_latin_laws).
Defined.

Lemma clean_repetitions_empty_witness :
  @clean_repetitions basic_latin (u "   ") = [].
Proof.
  apply (@clean_repetitions_empty basic_latin basic_latin_laws (u "   ")). reflexivity.
Defined.

Lemma extract_blocks_invariants_witness :
  exists blocks,
    @extract_blocks_with_metadata basic_latin sample_files "in/a.pdf" = Ok blocks
    /\ Forall (fun b =>
                 @strip basic_latin (text b) = text b
                 /\ (1 <= page b <= Z.of_nat (List.length sample_document))%Z
                 /\ origin b = bbox_corner b)
         blocks
    /\ StronglySorted Z.le (map page blocks).
Proof.
  apply (@extract_blocks_invariants basic_latin sample_files "in/a.pdf" sample_document).
  reflexivity.
Defined.

Lemma outline_pages_in_document_witness :
  exists outline,
    @extract_outline basic_latin (@whitespace_pipeline basic_latin) (@document_blocks basic_latin 0 sample_document) "en" = Ok outline
    /\ Forall (fun e => (0 <= h_page e < Z.of_nat (List.length sample_document))%Z) outline
    /\ StronglySorted Z.le (map h_page outline)
    /\ List.length outline <= List.length (@document_blocks basic_latin 0 sample_document).
Proof.
  apply (@outline_pages_in_document basic_latin (@whitespace_pipeline basic_latin) sample_document "en" tt). reflexivity.
Defined.

Lemma detect_title_shape_witness :
  @clean_repetitions basic_latin (@detect_title basic_latin stable_sort (@document_blocks basic_latin 0 sample_document) "en")
  = @detect_title basic_latin stable_sort (@document_blocks basic_latin 0 sample_document) "en"
  /\ @strip basic_latin (@detect_title basic_latin stable_sort (@document_blocks basic_latin 0 sample_document) "en")
     = @detect_title basic_latin stable_sort (@document_blocks basic_latin 0 sample_document) "en"
  /\ NoDup (@split basic_latin (@detect_title basic_latin stable_sort (@document_blocks basic_latin 0 sample_document) "en")).
Proof.
  apply (@detect_title_shape basic_latin basic_latin_laws stable_sort).
Defined.

Lemma document_result_returns_witness :
  exists r,
    @document_result basic_latin (@whitespace_pipeline basic_latin) failing_detector stable_sort sample_files "in/a.pdf" = Ok r
    /\ @detect_language failing_detector (@document_blocks basic_latin 0 sample_document)
       = Ok (language r)
    /\ title r = @detect_title basic_latin stable_sort (@document_blocks basic_latin 0 sample_document) (language r)
    /\ @extract_outline basic_latin (@whitespace_pipeline basic_latin) (@document_blocks basic_latin 0 sample_document) (language r)
       = Ok (outline r).
Proof.
  apply (@document_result_returns basic_latin (@whitespace_pipeline basic_latin) failing_detector stable_sort sample_files
           "in/a.pdf" sample_document tt); reflexivity.
Defined.

Lemma process_pdfs_writes_all_witness :
  @process_pdfs basic_latin (@whitespace_pipeline basic_latin) english_detector stable_sort sample_files clean_directory "in" "out" []
  = (rev (@written_for basic_latin (@whitespace_pipeline basic_latin) english_detector stable_sort sample_files clean_directory "out"
            (@glob_pdf clean_directory "in")) ++ [], Ok tt)
  /\ map fst (@written_for basic_latin (@whitespace_pipeline basic_latin) english_detector stable_sort sample_files clean_directory "out"
                (@glob_pdf clean_directory "in"))
     = map (@output_path clean_directory "out") (@glob_pdf clean_directory "in").
Proof.
  apply (@process_pdfs_writes_all basic_latin (@whitespace_pipeline basic_latin) english_detector stable_sort sample_files clean_directory
           "in" "out" [] tt); [reflexivity|].
  intros f Hf. cbn in Hf. destruct Hf as [<-|[<-|[]]]; eexists; split; reflexivity.
Defined.

Lemma process_pdfs_stops_at_failure_witness :
  @process_pdfs basic_latin (@whitespace_pipeline basic_latin) english_detector stable_sort sample_files sample_directory "in" "out" []
  = (rev (@written_for basic_latin (@whitespace_pipeline basic_latin) english_detector stable_sort sample_files sample_directory "out"
            ["in/a.pdf"%string]) ++ [], Raise OSError).
Proof.
  apply (@process_pdfs_stops_at_failure basic_latin (@whitespace_pipeline basic_latin) english_detector stable_sort sample_files
           sample_directory "in" "out" [] tt ["in/a.pdf"%string] "in/broken.pdf"
           ["in/c.pdf"%string] OSError); try reflexivity.
  - intros f [<-|[]]. eexists. split; reflexivity.
  - left. reflexivity.
Defined.

Lemma lru_cache_hit_after_call_witness :
  lru_cache 3 (fun _ : string => @Raise nat OSError)
    (snd (lru_cache 3 (fun _ : string => Ok 7) [("es"%string, 5)] "ja")) "ja"
  = (Ok 7, snd (lru_cache 3 (fun _ : string => Ok 7) [("es"%string, 5)] "ja")).
Proof.
  apply (@lru_cache_hit_after_call nat 3); [lia | reflexivity].
Defined.

Lemma is_full_sentence_last_char_witness :
  exists full,
    @is_full_sentence basic_latin (@whitespace_pipeline basic_latin) (u "This is it. ") "en" = Ok full
    /\ (full = true <->
        exists sent c,
          In sent (@doc_sents (@whitespace_pipeline basic_latin) tt (u "This is it. "))
          /\ 2 < List.length (filter (fun t => negb (is_space t)) (sent_tokens sent))
          /\ last_char (@strip basic_latin (sent_text sent)) = Some c
          /\ In c [46; 33; 63; 12290; 65281; 65311]%N).
Proof.
  apply (@is_full_sentence_last_char basic_latin basic_latin_laws (@whitespace_pipeline basic_latin) (u "This is it. ") "en" tt).
  reflexivity.
Defined.

Example document_result_of_sample :
  @document_result basic_latin (@whitespace_pipeline basic_latin) english_detector stable_sort sample_files "in/a.pdf"
  = Ok {| title := u "TITLE OF PAPER";
          outline := [ {| level := H1; h_text := u "Introduction"; h_page := 0 |};
                       {| level := H2; h_text := u "Related Work"; h_page := 1 |} ];
          language := "en" |}.
Proof. vm_compute. reflexivity. Qed.
